(** * Connection broker of the tab-sharing extension (background script)

    A shallow embedding of the class [TabShareExtension]: its two
    insertion-ordered maps, the legacy scalar, the relay links it holds,
    the host timers it arms and the handlers it registers with the host.

    JavaScript runs every handler on one event queue; a handler runs
    without interruption until it awaits a host call.  The embedding
    follows that: [handle] runs one host event up to the first await of
    its handler, a suspended handler is kept as a [task], and the event
    [Resume] runs it up to its next await. *)

From Stdlib Require Import ZArith String List Lia Bool.
From stdpp Require Import base option list.
Import ListNotations.
Local Open Scope Z_scope.

(** ** JavaScript [Map] with numeric keys

    The map data is the list of its slots in insertion order.  [delete]
    and [clear] empty a slot and leave it in place, [set] on a new key
    appends a slot, and an iterator is an index into the list: this is
    what makes a [for-of] loop over a map see deletions and insertions
    that happen while it is suspended. *)
Module JsMap.

Definition t (V : Type) : Type := list (option (Z * V)).

Definition empty {V} : t V := [].

Fixpoint get {V} (k : Z) (m : t V) : option V :=
  match m with
  | [] => None
  | Some (k', v) :: m' => if Z.eqb k' k then Some v else get k m'
  | None :: m' => get k m'
  end.

Definition has {V} (k : Z) (m : t V) : bool :=
  match get k m with Some _ => true | None => false end.

(** The slot of [k], when there is one, gets the new value in place. *)
Definition overwrite {V} (k : Z) (v : V) (m : t V) : t V :=
  map (fun slot =>
         match slot with
         | Some (k', v') => if Z.eqb k' k then Some (k', v) else slot
         | None => None
         end) m.

Definition set {V} (k : Z) (v : V) (m : t V) : t V :=
  if has k m then overwrite k v m else m ++ [Some (k, v)].

(** A key is held by at most one slot ([set] appends only a key that
    is absent), so emptying the slots that hold [k] empties that one. *)
Definition delete {V} (k : Z) (m : t V) : t V :=
  map (fun slot =>
         match slot with
         | Some (k', _) => if Z.eqb k' k then None else slot
         | None => None
         end) m.

Definition clear {V} (m : t V) : t V := map (fun _ => None) m.

(** [Array.from(m)], [Array.from(m.keys())] and [m.size]. *)
Definition entries {V} (m : t V) : list (Z * V) := omap id m.

Definition keys {V} (m : t V) : list Z := map fst (entries m).

Definition size {V} (m : t V) : nat := length (entries m).

(** One step of a map iterator standing at slot [i]: the first live
    slot from [i] on, with its index. *)
Fixpoint next_from {V} (here : nat) (i : nat) (m : t V) : option (nat * (Z * V)) :=
  match m with
  | [] => None
  | slot :: m' =>
      match i with
      | S i' => next_from (S here) i' m'
      | O => match slot with
             | Some kv => Some (here, kv)
             | None => next_from (S here) O m'
             end
      end
  end.

Definition next {V} (i : nat) (m : t V) : option (nat * (Z * V)) :=
  next_from 0 i m.

(** A write to a field of the record object held by slot [i]: the
    slot keeps its key, its record is updated by [f]. *)
Definition update_at {V} (i : nat) (f : V -> V) (m : t V) : t V :=
  alter (fun slot =>
           match slot with
           | Some (k, v) => Some (k, f v)
           | None => None
           end) i m.

End JsMap.

(** ** Data model *)

(** A relay link is an object on the heap; the maps and the closures
    hold its address. *)
Abbreviation link := nat (only parsing).
Abbreviation timer_id := nat (only parsing).

(** The two closures the broker assigns to [connection.onclose]:
    the one of [_connectToRelay] (lines 107-111) and the one of
    [_connectTab] (lines 143-147), each with the variable it captures. *)
Inductive onclose_handler : Type :=
| NoHandler
| OnClosePending (selectorTabId : Z)
| OnCloseActive (tabId : Z).

(** Modelled from the spec: the class [RelayConnection] of
    ./relayConnection is imported and not among the sources.  The spec
    gives it "bind-to-tab (sets an immutable tab identifier), close
    (idempotent, takes a human-readable reason), and a one-shot close
    notification" that "fires exactly once regardless of which path
    triggered it (explicit close, remote close, or timeout)".  A link
    is its closed flag, the tab it is bound to and the [onclose]
    property the broker writes. *)
Record RelayConnection : Type := {
  closed : bool;
  boundTab : option Z;
  onclose : onclose_handler
}.

(** The value type of [_pendingTabSelection]:
    [{ connection: RelayConnection, timerId?: number }].  A timer is
    named by its place in the host's table [timers]; the id the host
    hands out for it is never 0, so [if (pending.timerId)] tests
    presence. *)
Record PendingSelection : Type := {
  connection : link;
  timerId : option timer_id
}.

(** A host timer armed by [_onTabActivated] (line 218): its closure
    captures [tabId] and the record [pending], of which it reads the
    field [connection] only (that field is never reassigned). *)
Record Timer : Type := {
  timer_tabId : Z;
  timer_connection : link;
  armed : bool
}.

Record Tab : Type := {
  tab_id : Z;
  tab_url : option string
}.

Inductive PageMessage : Type :=
| connectToMCPRelay (mcpRelayUrl : string)
| getTabs
| connectToTab (tabId : option Z) (windowId : option Z) (mcpRelayUrl : string)
| getConnectionStatus
| getAllConnections
| disconnect (tabId : option Z).

(** [sender.tab!.id!] and [sender.tab?.windowId!]. *)
Record MessageSender : Type := {
  sender_tabId : Z;
  sender_windowId : Z
}.

(** What [sendResponse] is called with. *)
Inductive response : Type :=
| Success                                         (* { success: true } *)
| SuccessTabs (tabs : list Tab) (currentTabId : Z)
| SuccessTab (tabId : Z)                          (* { success: true, tabId } *)
| Failure (error : string)                        (* { success: false, error } *)
| ConnectionStatus (connectedTabId : option Z) (connectedTabIds : list Z)
| AllConnections (connections : list Z).          (* one { tabId } per element *)

(** Calls that leave the broker: the observable behaviour. *)
Inductive effect : Type :=
| SendResponse (r : response)
| LinkClose (l : link) (reason : string)
| LinkSetTabId (l : link) (tabId : Z)
| NewWebSocket (url : string)
| SetBadgeText (tabId : Z) (text : string)
| SetTitle (tabId : Z) (title : string)
| SetBadgeBackgroundColor (tabId : Z) (color : string)
| SetTimeout (t : timer_id) (ms : Z)
| ClearTimeout (t : timer_id)
| TabsSendMessage (tabId : Z) (type : string)
| TabsUpdate (tabId : Z)
| WindowsUpdate (windowId : Z)
| TabsQuery
| TabsCreate (url : string).

(** What runs when an awaited [_removeConnectedTab] returns. *)
Inductive continuation : Type :=
| KDone                        (* [void] call, or the end of a host listener *)
| KRespond (r : response)      (* the callbacks of [_onMessage] *)
| KDisconnectLoop (i : nat).   (* the [for-of] of [_disconnect], iterator at slot [i] *)

(** A handler suspended on a host call. *)
Inductive task : Type :=
| AwaitSocketOpen (selectorTabId : Z) (mcpRelayUrl : string)   (* line 100 *)
| AwaitTabsQuery (currentTabId : Z)                            (* line 237 *)
| AwaitEvictionBadge (selectorTabId tabId windowId : Z)        (* line 134 *)
| AwaitFocus (tabId : Z)                                       (* line 153 *)
| AwaitRemoveBadge (tabId : Z) (k : continuation).             (* line 171 *)

(** How the host settles an awaited call.  Only [chrome.tabs.query]
    yields a value that is used. *)
Inductive host_result : Type :=
| Fulfilled (tabs : list Tab)
| Rejected (message : string).

(** The fields of [TabShareExtension], and around them the heap of
    relay links, the host's timer table, the suspended handlers and the
    trace of calls made so far (oldest first). *)
Record state : Type := {
  _activeConnections : JsMap.t link;
  _lastConnectedTabId : option Z;
  _pendingTabSelection : JsMap.t PendingSelection;
  links : list RelayConnection;
  timers : list Timer;
  tasks : list task;
  trace : list effect
}.

(** [new TabShareExtension()]. *)
Definition initial : state := {|
  _activeConnections := JsMap.empty;
  _lastConnectedTabId := None;
  _pendingTabSelection := JsMap.empty;
  links := [];
  timers := [];
  tasks := [];
  trace := []
|}.

Definition with_active (f : JsMap.t link -> JsMap.t link) (s : state) : state :=
  {| _activeConnections := f (_activeConnections s);
     _lastConnectedTabId := _lastConnectedTabId s;
     _pendingTabSelection := _pendingTabSelection s;
     links := links s; timers := timers s; tasks := tasks s; trace := trace s |}.

Definition with_last (v : option Z) (s : state) : state :=
  {| _activeConnections := _activeConnections s;
     _lastConnectedTabId := v;
     _pendingTabSelection := _pendingTabSelection s;
     links := links s; timers := timers s; tasks := tasks s; trace := trace s |}.

Definition with_pending
    (f : JsMap.t PendingSelection -> JsMap.t PendingSelection) (s : state) : state :=
  {| _activeConnections := _activeConnections s;
     _lastConnectedTabId := _lastConnectedTabId s;
     _pendingTabSelection := f (_pendingTabSelection s);
     links := links s; timers := timers s; tasks := tasks s; trace := trace s |}.

Definition with_links (f : list RelayConnection -> list RelayConnection) (s : state) : state :=
  {| _activeConnections := _activeConnections s;
     _lastConnectedTabId := _lastConnectedTabId s;
     _pendingTabSelection := _pendingTabSelection s;
     links := f (links s); timers := timers s; tasks := tasks s; trace := trace s |}.

Definition with_timers (f : list Timer -> list Timer) (s : state) : state :=
  {| _activeConnections := _activeConnections s;
     _lastConnectedTabId := _lastConnectedTabId s;
     _pendingTabSelection := _pendingTabSelection s;
     links := links s; timers := f (timers s); tasks := tasks s; trace := trace s |}.

Definition with_tasks (f : list task -> list task) (s : state) : state :=
  {| _activeConnections := _activeConnections s;
     _lastConnectedTabId := _lastConnectedTabId s;
     _pendingTabSelection := _pendingTabSelection s;
     links := links s; timers := timers s; tasks := f (tasks s); trace := trace s |}.

(** A call that leaves the broker is appended to the trace. *)
Definition emit (e : effect) (s : state) : state :=
  {| _activeConnections := _activeConnections s;
     _lastConnectedTabId := _lastConnectedTabId s;
     _pendingTabSelection := _pendingTabSelection s;
     links := links s; timers := timers s; tasks := tasks s;
     trace := trace s ++ [e] |}.

(** [await]: the handler is parked behind those already waiting. *)
Definition suspend (t : task) (s : state) : state :=
  with_tasks (fun q => q ++ [t]) s.

(** ** Badge and legacy scalar *)

(** [_updateBadge] (lines 179-188).  It touches no field of the broker
    and swallows every host failure.  Its first call, [setBadgeText],
    is made in the turn that calls [_updateBadge]; the two calls that
    follow are made once the host has fulfilled the call before.  The
    trace records the three together, at the place of the first: what
    is stated below about badge calls is stated about [setBadgeText],
    and no order is stated between the later two and other calls. *)
Definition _updateBadge (tabId : Z) (text : string)
    (color title : option string) (s : state) : state :=
  let s1 := emit (SetBadgeText tabId text) s in
  let s2 := emit (SetTitle tabId (default ""%string title)) s1 in
  match color with
  | Some c => if String.eqb c "" then s2 else emit (SetBadgeBackgroundColor tabId c) s2
  | None => s2
  end.

(** The text of the badge of a connected tab, as line 167 spells it. *)
Definition connected_glyph : string := "âœ“".

(** [_addConnectedTab] (lines 166-168), up to its await. *)
Definition _addConnectedTab (tabId : Z) (s : state) : state :=
  _updateBadge tabId connected_glyph (Some "#4CAF50"%string)
    (Some "Connected to MCP client"%string) s.

(** [_removeConnectedTab] (lines 170-177) up to its await (line 171);
    [k] is what its caller does once it has returned. *)
Definition _removeConnectedTab (tabId : Z) (k : continuation) (s : state) : state :=
  suspend (AwaitRemoveBadge tabId k) (_updateBadge tabId "" None None s).

(** [_removeConnectedTab] after its await (lines 173-176). *)
Definition _removeConnectedTab_resumed (tabId : Z) (s : state) : state :=
  match _lastConnectedTabId s with
  | Some lastTab =>
      if Z.eqb lastTab tabId
      then with_last (last (JsMap.keys (_activeConnections s))) s
      else s
  | None => s
  end.

(** ** Relay links *)

Definition set_closed (c : RelayConnection) : RelayConnection :=
  {| closed := true; boundTab := boundTab c; onclose := onclose c |}.

Definition set_onclose (h : onclose_handler) (c : RelayConnection) : RelayConnection :=
  {| closed := closed c; boundTab := boundTab c; onclose := h |}.

(** Modelled from the spec: [setTabId] of the absent [RelayConnection],
    "bind-to-tab (sets an immutable tab identifier)". *)
Definition setTabId (tabId : Z) (c : RelayConnection) : RelayConnection :=
  {| closed := closed c; boundTab := Some tabId; onclose := onclose c |}.

(** The bodies of the two [onclose] closures. *)
Definition run_onclose (h : onclose_handler) (s : state) : state :=
  match h with
  | NoHandler => s
  | OnClosePending selectorTabId =>
      with_pending (JsMap.delete selectorTabId) s
  | OnCloseActive tabId =>
      _removeConnectedTab tabId KDone (with_active (JsMap.delete tabId) s)
  end.

(** Modelled from the spec: the close notification of the absent
    [RelayConnection].  It is one-shot: a link that is already closed
    notifies nobody; otherwise the link becomes closed and its current
    [onclose] runs, within the call that closed it. *)
Definition notify_closed (l : link) (s : state) : state :=
  match links s !! l with
  | Some c =>
      if closed c then s
      else run_onclose (onclose c) (with_links (fun h => <[l := set_closed c]> h) s)
  | None => s
  end.

(** Modelled from the spec: [close(reason)] of the absent
    [RelayConnection], "idempotent, takes a human-readable reason". *)
Definition close (l : link) (reason : string) (s : state) : state :=
  notify_closed l (emit (LinkClose l reason) s).

(** ** Request handlers *)

(** [_connectToRelay] (lines 96-119) up to its await: the socket is
    created, no field of the broker is read or written.  The promise
    of line 100 settles once, by [onopen], by [onerror] or by the
    5-second timeout, whichever comes first. *)
Definition _connectToRelay (selectorTabId : Z) (mcpRelayUrl : string) (s : state) : state :=
  suspend (AwaitSocketOpen selectorTabId mcpRelayUrl) (emit (NewWebSocket mcpRelayUrl) s).

(** [_connectToRelay] after its await.  Line 106 allocates the link,
    lines 107-111 give it its [onclose], line 112 stores it. *)
Definition _connectToRelay_resumed (selectorTabId : Z) (r : host_result) (s : state) : state :=
  match r with
  | Fulfilled _ =>
      let l : link := length (links s) in
      let c := {| closed := false; boundTab := None;
                  onclose := OnClosePending selectorTabId |} in
      let s1 := with_links (fun h => h ++ [c]) s in
      let s2 := with_pending
                  (JsMap.set selectorTabId {| connection := l; timerId := None |}) s1 in
      emit (SendResponse Success) s2
  | Rejected message =>
      emit (SendResponse (Failure ("Failed to connect to MCP relay: " ++ message)%string)) s
  end.

(** [_connectTab] from line 137 on: the pending link of the selector
    tab is bound to [tabId], or the call throws and the catch block
    (lines 159-163) clears the badge before the error is reported. *)
Definition _connectTab_bind (selectorTabId tabId windowId : Z) (s : state) : state :=
  match JsMap.get selectorTabId (_pendingTabSelection s) with
  | None =>
      _removeConnectedTab tabId
        (KRespond (Failure "No active MCP relay connection"%string)) s
  | Some pending =>
      let pendingConnection := connection pending in
      let s1 := with_pending (JsMap.delete selectorTabId) s in
      let s2 := emit (LinkSetTabId pendingConnection tabId)
                  (with_links (alter (setTabId tabId) pendingConnection) s1) in
      let s3 := with_links
                  (alter (set_onclose (OnCloseActive tabId)) pendingConnection) s2 in
      let s4 := with_active (JsMap.set tabId pendingConnection) s3 in
      let s5 := with_last (Some tabId) s4 in
      let s6 := emit (WindowsUpdate windowId)
                  (emit (TabsUpdate tabId) (_addConnectedTab tabId s5)) in
      suspend (AwaitFocus tabId) s6
  end.

(** [_connectTab] (lines 121-164) up to its first await. *)
Definition _connectTab (selectorTabId tabId windowId : Z) (s : state) : state :=
  match JsMap.get tabId (_activeConnections s) with
  | Some existingConnection =>
      let s1 := close existingConnection "New connection requested for this tab" s in
      let s2 := with_active (JsMap.delete tabId) s1 in
      suspend (AwaitEvictionBadge selectorTabId tabId windowId)
        (_updateBadge tabId "" None None s2)
  | None => _connectTab_bind selectorTabId tabId windowId s
  end.

(** [_connectTab] after [Promise.all] (line 153) has settled. *)
Definition _connectTab_focused (tabId : Z) (r : host_result) (s : state) : state :=
  match r with
  | Fulfilled _ => emit (SendResponse (SuccessTab tabId)) s
  | Rejected message => _removeConnectedTab tabId (KRespond (Failure message)) s
  end.

(** [_disconnect] without a tab id (lines 258-264): one turn of the
    [for-of] loop with the iterator at slot [i], up to the await of
    line 261, or the end of the loop. *)
Definition _disconnect_all (i : nat) (s : state) : state :=
  match JsMap.next i (_activeConnections s) with
  | Some (j, (connectedTabId, conn)) =>
      _removeConnectedTab connectedTabId (KDisconnectLoop (S j))
        (close conn "User disconnected" s)
  | None =>
      emit (SendResponse Success) (with_last None (with_active JsMap.clear s))
  end.

(** [_disconnect] (lines 248-266). *)
Definition _disconnect (tabId : option Z) (s : state) : state :=
  match tabId with
  | Some tabId =>
      match JsMap.get tabId (_activeConnections s) with
      | Some conn =>
          let s1 := close conn "User disconnected" s in
          let s2 := with_active (JsMap.delete tabId) s1 in
          _removeConnectedTab tabId (KRespond Success) s2
      | None => emit (SendResponse Success) s
      end
  | None => _disconnect_all 0 s
  end.

(** [_getTabs] (lines 236-239): the query, then the filter. *)
Definition internal_schemes : list string :=
  ["chrome:"; "edge:"; "devtools:"]%string.

Definition selectable (tab : Tab) : bool :=
  match tab_url tab with
  | Some url =>
      negb (String.eqb url "")
      && negb (existsb (fun scheme => String.prefix scheme url) internal_schemes)
  | None => false
  end.

Definition _getTabs (currentTabId : Z) (s : state) : state :=
  suspend (AwaitTabsQuery currentTabId) (emit TabsQuery s).

Definition _getTabs_resumed (currentTabId : Z) (r : host_result) (s : state) : state :=
  match r with
  | Fulfilled tabs => emit (SendResponse (SuccessTabs (List.filter selectable tabs) currentTabId)) s
  | Rejected message => emit (SendResponse (Failure message)) s
  end.

(** ** Tab lifecycle listeners and timers *)

(** [_onTabRemoved] (lines 190-206). *)
Definition _onTabRemoved (tabId : Z) (s : state) : state :=
  match JsMap.get tabId (_pendingTabSelection s) with
  | Some pending =>
      close (connection pending) "Browser tab closed"
        (with_pending (JsMap.delete tabId) s)
  | None =>
      match JsMap.get tabId (_activeConnections s) with
      | Some activeConnection =>
          let s1 := close activeConnection "Browser tab closed" s in
          _removeConnectedTab tabId KDone (with_active (JsMap.delete tabId) s1)
      | None => s
      end
  end.

Definition set_timerId (v : option timer_id) (p : PendingSelection) : PendingSelection :=
  {| connection := connection p; timerId := v |}.

Definition disarm (tm : Timer) : Timer :=
  {| timer_tabId := timer_tabId tm; timer_connection := timer_connection tm;
     armed := false |}.

Definition clearTimeout (t : timer_id) (s : state) : state :=
  emit (ClearTimeout t) (with_timers (alter disarm t) s).

(** [setTimeout(callback, 5000)] of line 218; the new timer takes the
    next free id. *)
Definition setTimeout (tabId : Z) (conn : link) (s : state) : timer_id * state :=
  let t : timer_id := length (timers s) in
  let tm := {| timer_tabId := tabId; timer_connection := conn; armed := true |} in
  (t, emit (SetTimeout t 5000) (with_timers (fun ts => ts ++ [tm]) s)).

(** The [for-of] of [_onTabActivated] (lines 209-227) over the slots
    of [_pendingTabSelection] from slot [i] on.  The body adds and
    removes no slot, [continue] goes to the next slot and [return]
    (line 225) leaves the loop. *)
Fixpoint _onTabActivated_from (activeTabId : Z) (i : nat)
    (slots : JsMap.t PendingSelection) (s : state) : state :=
  match slots with
  | [] => s
  | None :: rest => _onTabActivated_from activeTabId (S i) rest s
  | Some (tabId, pending) :: rest =>
      if Z.eqb tabId activeTabId then
        match timerId pending with
        | Some t =>
            let s1 := clearTimeout t s in
            let s2 := with_pending (JsMap.update_at i (set_timerId None)) s1 in
            _onTabActivated_from activeTabId (S i) rest s2
        | None => _onTabActivated_from activeTabId (S i) rest s
        end
      else
        match timerId pending with
        | None =>
            let '(t, s1) := setTimeout tabId (connection pending) s in
            with_pending (JsMap.update_at i (set_timerId (Some t))) s1
        | Some _ => _onTabActivated_from activeTabId (S i) rest s
        end
  end.

(** [_onTabActivated] (lines 208-228). *)
Definition _onTabActivated (activeTabId : Z) (s : state) : state :=
  _onTabActivated_from activeTabId 0 (_pendingTabSelection s) s.

(** The callback of the timer (lines 218-224). *)
Definition timer_callback (tm : Timer) (s : state) : state :=
  let existed := JsMap.has (timer_tabId tm) (_pendingTabSelection s) in
  let s1 := with_pending (JsMap.delete (timer_tabId tm)) s in
  if existed then
    emit (TabsSendMessage (timer_tabId tm) "connectionTimeout")
      (close (timer_connection tm) "Tab has been inactive for 5 seconds" s1)
  else s1.

(** The host fires timer [t]: an armed timer runs its callback once. *)
Definition fire_timer (t : timer_id) (s : state) : state :=
  match timers s !! t with
  | Some tm =>
      if armed tm then timer_callback tm (with_timers (alter disarm t) s) else s
  | None => s
  end.

(** [_onTabUpdated] (lines 230-234); nothing follows the badge calls. *)
Definition _onTabUpdated (tabId : Z) (s : state) : state :=
  if JsMap.has tabId (_activeConnections s) then _addConnectedTab tabId s else s.

(** [_onActionClicked] (lines 241-246). *)
Definition _onActionClicked (s : state) : state :=
  emit (TabsCreate "status.html") s.

(** ** Dispatch *)

(** [a || b] on an optional number: [undefined] and [0] give [b]. *)
Definition js_or (a : option Z) (b : Z) : Z :=
  match a with
  | Some x => if Z.eqb x 0 then b else x
  | None => b
  end.

(** [_onMessage] (lines 54-94).  The callbacks passed to [then] are the
    [KRespond] continuations and the responses of the resumed parts. *)
Definition _onMessage (message : PageMessage) (sender : MessageSender) (s : state) : state :=
  match message with
  | connectToMCPRelay mcpRelayUrl =>
      _connectToRelay (sender_tabId sender) mcpRelayUrl s
  | getTabs =>
      _getTabs (sender_tabId sender) s
  | connectToTab tabId windowId _ =>
      _connectTab (sender_tabId sender)
        (js_or tabId (sender_tabId sender))
        (js_or windowId (sender_windowId sender)) s
  | getConnectionStatus =>
      emit (SendResponse (ConnectionStatus (_lastConnectedTabId s)
                            (JsMap.keys (_activeConnections s)))) s
  | getAllConnections =>
      emit (SendResponse (AllConnections (JsMap.keys (_activeConnections s)))) s
  | disconnect tabId =>
      _disconnect tabId s
  end.

(** What the host delivers to the broker. *)
Inductive event : Type :=
| Message (message : PageMessage) (sender : MessageSender)
| TabRemoved (tabId : Z)
| TabUpdated (tabId : Z)
| TabActivated (tabId : Z)
| ActionClicked
| TimerFired (t : timer_id)
| SocketClosed (l : link)             (* the relay end closes the socket *)
| Resume (i : nat) (r : host_result). (* the call awaited by task [i] settles *)

Definition continue (k : continuation) (s : state) : state :=
  match k with
  | KDone => s
  | KRespond r => emit (SendResponse r) s
  | KDisconnectLoop i => _disconnect_all i s
  end.

(** A suspended handler runs on to its next await. *)
Definition resume (t : task) (r : host_result) (s : state) : state :=
  match t with
  | AwaitSocketOpen selectorTabId _ => _connectToRelay_resumed selectorTabId r s
  | AwaitTabsQuery currentTabId => _getTabs_resumed currentTabId r s
  | AwaitEvictionBadge selectorTabId tabId windowId =>
      _connectTab_bind selectorTabId tabId windowId s
  | AwaitFocus tabId => _connectTab_focused tabId r s
  | AwaitRemoveBadge tabId k => continue k (_removeConnectedTab_resumed tabId s)
  end.

(** One task of the event queue. *)
Definition handle (e : event) (s : state) : state :=
  match e with
  | Message message sender => _onMessage message sender s
  | TabRemoved tabId => _onTabRemoved tabId s
  | TabUpdated tabId => _onTabUpdated tabId s
  | TabActivated tabId => _onTabActivated tabId s
  | ActionClicked => _onActionClicked s
  | TimerFired t => fire_timer t s
  | SocketClosed l => notify_closed l s
  | Resume i r =>
      match tasks s !! i with
      | Some t => resume t r (with_tasks (delete i) s)
      | None => s
      end
  end.

(** The suspended handlers run to their end, one after the other in
    the order in which they suspended, every host call succeeding. *)
Fixpoint settle (fuel : nat) (s : state) : state :=
  match fuel with
  | O => s
  | S fuel' =>
      match tasks s with
      | [] => s
      | _ :: _ => settle fuel' (handle (Resume 0 (Fulfilled [])) s)
      end
  end.

Definition run (events : list event) (s : state) : state :=
  fold_left (fun s e => handle e s) events s.

(** The states the broker can be in. *)
Inductive reachable : state -> Prop :=
| reachable_initial : reachable initial
| reachable_handle (e : event) (s : state) :
    reachable s -> reachable (handle e s).

(** ** Vocabulary of the properties *)

(** The link [l] is referenced by the pending map, by the active map. *)
Definition in_pending (l : link) (s : state) : Prop :=
  exists k p, Some (k, p) ∈ _pendingTabSelection s /\ connection p = l.

Definition in_active (l : link) (s : state) : Prop :=
  exists k, Some (k, l) ∈ _activeConnections s.

Definition is_closed (l : link) (s : state) : Prop :=
  exists c, links s !! l = Some c /\ closed c = true.

(** Every link a map refers to is open and notifies the map and key
    that hold it. *)
Definition links_consistent (s : state) : Prop :=
  (forall k p, Some (k, p) ∈ _pendingTabSelection s ->
     exists c, links s !! connection p = Some c
               /\ closed c = false /\ onclose c = OnClosePending k)
  /\
  (forall k l, Some (k, l) ∈ _activeConnections s ->
     exists c, links s !! l = Some c
               /\ closed c = false /\ onclose c = OnCloseActive k).

(** In each map a tab is the key of at most one slot. *)
Definition keys_unique (s : state) : Prop :=
  NoDup (JsMap.keys (_pendingTabSelection s))
  /\ NoDup (JsMap.keys (_activeConnections s)).

(** No handler is suspended. *)
Definition quiescent (s : state) : Prop := tasks s = [].

(** [_lastConnectedTabId] names a tab that has an active connection,
    or is [null] while there is none. *)
Definition last_tab_valid (s : state) : Prop :=
  match _lastConnectedTabId s with
  | Some t => JsMap.has t (_activeConnections s) = true
  | None => JsMap.keys (_activeConnections s) = []
  end.

Definition timer_is_armed (t : timer_id) (s : state) : Prop :=
  exists tm, timers s !! t = Some tm /\ armed tm = true.

(** The broker holds the same maps, scalar and links in [s] and [s']. *)
Definition same_broker_state (s s' : state) : Prop :=
  _activeConnections s' = _activeConnections s
  /\ _pendingTabSelection s' = _pendingTabSelection s
  /\ _lastConnectedTabId s' = _lastConnectedTabId s
  /\ links s' = links s.

(** Letting timer [t] fire in [s] makes no call and leaves the broker
    as it is. *)
Definition fires_without_effect (t : timer_id) (s : state) : Prop :=
  trace (handle (TimerFired t) s) = trace s
  /\ same_broker_state s (handle (TimerFired t) s).

(** ** Scenarios *)

Definition from_tab (tabId : Z) : MessageSender :=
  {| sender_tabId := tabId; sender_windowId := 10 |}.

Definition relay_url : string := "ws://localhost:9223/extension".

(** A page in tab [sel] completes the relay handshake. *)
Definition handshake (sel : Z) : list event :=
  [Message (connectToMCPRelay relay_url) (from_tab sel); Resume 0 (Fulfilled [])].

(** Tab [sel] holds a pending selection. *)
Definition one_pending (sel : Z) : state := run (handshake sel) initial.

(** Tabs 1 and 2 hold a pending selection each, tab 1 the older one. *)
Definition two_pending : state := run (handshake 1 ++ handshake 2) initial.

(** Tab 1 pending with an armed timer: the user looked at tab 3. *)
Definition pending_armed : state := run [TabActivated 3] (one_pending 1).

(** Tabs 1 and 2 pending, only the timer of tab 2 armed: the user
    looked at tab 3 twice and then at tab 1. *)
Definition second_armed : state :=
  run [TabActivated 3; TabActivated 3; TabActivated 1] two_pending.

(** The page in tab [sel] binds its pending link to tab [target]. *)
Definition bind (sel target : Z) : event :=
  Message (connectToTab (Some target) None relay_url) (from_tab sel).

(** Tab 7 holds the only active connection. *)
Definition one_active : state :=
  settle 1 (run (handshake 1 ++ [bind 1 7]) initial).

(** Tabs 3 and 7 hold an active connection each, tab 7 bound last. *)
Definition two_active : state :=
  settle 1 (run (handshake 1 ++ [bind 1 7])
    (settle 1 (run (handshake 1 ++ [bind 1 3]) initial))).

(** Tab 7 was connected and the user has disconnected it. *)
Definition disconnected : state :=
  settle 2 (run [Message (disconnect (Some 7)) (from_tab 1)] one_active).

(** Tab 1 chose itself as target and then started a new handshake: it
    holds an active connection (link 0) and a pending one (link 1). *)
Definition pending_and_active : state :=
  run (handshake 1) (settle 1 (run (handshake 1 ++ [bind 1 1]) initial)).

(** A pending link is bound to no tab; an active link is bound to the
    tab that is its key. *)
Definition links_bound (s : state) : Prop :=
  (forall k p, Some (k, p) ∈ _pendingTabSelection s ->
     exists c, links s !! connection p = Some c /\ boundTab c = None)
  /\
  (forall k l, Some (k, l) ∈ _activeConnections s ->
     exists c, links s !! l = Some c /\ boundTab c = Some k).

Definition links_sound (s : state) : Prop :=
  links_consistent s /\ links_bound s.

(** [s'] is what [disconnect()] makes of [s]: no handler is left
    suspended, no connection is active, the answer was
    [{ success: true }], and the links of the entries [entries] are
    closed; pending selections and timers are those of [s]. *)
Definition all_disconnected (s s' : state) (entries : JsMap.t link) : Prop :=
  quiescent s'
  /\ JsMap.keys (_activeConnections s') = []
  /\ _lastConnectedTabId s' = None
  /\ last (trace s') = Some (SendResponse Success)
  /\ _pendingTabSelection s' = _pendingTabSelection s
  /\ timers s' = timers s
  /\ (forall l, is_closed l s -> is_closed l s')
  /\ (forall k l, Some (k, l) ∈ entries -> is_closed l s').

(** The suspended handler [t] deals with [_lastConnectedTabId] for
    [tabId] when it resumes: it is in [_removeConnectedTab(tabId)]
    ahead of line 173, or in [_connectTab] ahead of line 137, which
    either binds [tabId] (line 151) or ends in the catch block
    (line 160). *)
Definition settles_last (tabId : Z) (t : task) : Prop :=
  match t with
  | AwaitRemoveBadge tabId' _ => tabId' = tabId
  | AwaitEvictionBadge _ tabId' _ => tabId' = tabId
  | _ => False
  end.

(** [_lastConnectedTabId] is [null] only while no connection is
    active, and the tab it names has an active connection or is about
    to be dealt with by a suspended handler. *)
Definition last_tab_accounted (s : state) : Prop :=
  match _lastConnectedTabId s with
  | Some t =>
      JsMap.has t (_activeConnections s) = true
      \/ exists x, x ∈ tasks s /\ settles_last t x
  | None => JsMap.keys (_activeConnections s) = []
  end.

(** A slot of the pending map after the loop of [_onTabActivated] has
    gone past it (lines 210-216): the entry of the focused tab holds no
    timer id, any other entry is as it was. *)
Definition passed_slot (activeTabId : Z) (slot : option (Z * PendingSelection))
    : option (Z * PendingSelection) :=
  match slot with
  | Some (tabId, pending) =>
      if Z.eqb tabId activeTabId then Some (tabId, set_timerId None pending) else slot
  | None => None
  end.

(** From [s] to [s1] the loop of [_onTabActivated] has gone past the
    slots [passed]: nothing changed but timers and trace, no timer was
    armed, and the timers held by the focused tab were cleared. *)
Definition passes_over (activeTabId : Z) (passed : JsMap.t PendingSelection)
    (s s1 : state) : Prop :=
  _activeConnections s1 = _activeConnections s
  /\ _lastConnectedTabId s1 = _lastConnectedTabId s
  /\ links s1 = links s
  /\ tasks s1 = tasks s
  /\ length (timers s1) = length (timers s)
  /\ (forall t, timer_is_armed t s1 -> timer_is_armed t s)
  /\ (forall e, e ∈ trace s -> e ∈ trace s1)
  /\ (forall q t, Some (activeTabId, q) ∈ passed -> timerId q = Some t ->
        ClearTimeout t ∈ trace s1 /\ ~ timer_is_armed t s1).

(** The link [l] is bound to the tab [tabId]. *)
Definition bound_to (l : link) (tabId : Z) (s : state) : Prop :=
  exists c, links s !! l = Some c /\ boundTab c = Some tabId.

(** ** The status page

    The component [StatusApp] of the status page: it asks the
    background script for the connected tabs, looks each of them up
    and lists them, with a button to disconnect one tab or all. *)
Module StatusPage.

Record TabInfo : Type := {
  id : Z;
  windowId : Z;
  title : string;
  url : string;
  favIconUrl : option string
}.

(** [loadStatus] (lines 33-56), the value it passes to [setStatus].
    [answer] is what [chrome.runtime.sendMessage] resolved with and
    [tabs_get] is [chrome.tabs.get], [None] where it throws (line 48:
    the tab may have been closed). *)
Definition loadStatus (tabs_get : Z -> option TabInfo) (answer : option response)
    : list TabInfo :=
  match answer with
  | Some (ConnectionStatus _ connectedTabIds) =>
      match connectedTabIds with
      | [] => []
      | _ :: _ => omap tabs_get connectedTabIds
      end
  | _ => []
  end.

(** The title of the list (lines 83-85). *)
Inductive section_title : Type :=
| PageWithClient                (* 'Page with connected MCP client:' *)
| PagesWithClients (n : nat).   (* `Pages with connected MCP clients (${n}):` *)

(** What the component renders (lines 77-116). *)
Inductive view : Type :=
| NoClients   (* 'No MCP clients are currently connected.' *)
| ConnectedTabs (heading : section_title) (rows : list TabInfo)
    (disconnectAllButton : bool).

Definition StatusApp (connectedTabs : list TabInfo) : view :=
  let n := length connectedTabs in
  if (0 <? n)%nat then
    ConnectedTabs (if (n =? 1)%nat then PageWithClient else PagesWithClients n)
      connectedTabs (1 <? n)%nat
  else NoClients.

(** What a page that sent a request is answered: the response the
    handler passed to [sendResponse] last. *)
Definition answered (s : state) : option response :=
  match last (trace s) with
  | Some (SendResponse r) => Some r
  | _ => None
  end.

(** [loadStatus] run by the page [page] against the background script
    in state [s]. *)
Definition connectedTabs (tabs_get : Z -> option TabInfo) (page : MessageSender)
    (s : state) : list TabInfo :=
  loadStatus tabs_get (answered (handle (Message getConnectionStatus page) s)).

End StatusPage.

(** The timer id a pending entry holds is the id of an armed timer
    that was set for the tab and the link of that entry. *)
Definition timers_held (s : state) : Prop :=
  forall k p t,
    Some (k, p) ∈ _pendingTabSelection s -> timerId p = Some t ->
    timers s !! t
    = Some {| timer_tabId := k; timer_connection := connection p; armed := true |}.

(** * Properties *)

(** ** Facts about [JsMap] *)
Module JsMapFacts.
Section Facts.
Context {V : Type}.
Implicit Types (m : JsMap.t V) (k : Z) (v : V).

Lemma get_elem k v m : JsMap.get k m = Some v -> Some (k, v) ∈ m.
Proof.
  induction m as [|[[k' v']|] m IH]; simpl; intros H; try discriminate.
  - destruct (Z.eqb_spec k' k) as [->|_].
    + injection H as ->. apply list_elem_of_here.
    + apply list_elem_of_further, IH, H.
  - apply list_elem_of_further, IH, H.
Qed.

Lemma get_None_elem k v m : JsMap.get k m = None -> Some (k, v) ∉ m.
Proof.
  induction m as [|[[k' v']|] m IH]; simpl; intros H Hin.
  - inversion Hin.
  - destruct (Z.eqb_spec k' k) as [->|Hne]; [discriminate|].
    apply elem_of_cons in Hin as [Heq|Hin]; [congruence|].
    exact (IH H Hin).
  - apply elem_of_cons in Hin as [Heq|Hin]; [discriminate|].
    exact (IH H Hin).
Qed.

Lemma elem_get k v m : Some (k, v) ∈ m -> JsMap.get k m <> None.
Proof.
  intros Hin Hnone. exact (get_None_elem k v m Hnone Hin).
Qed.

Lemma elem_delete k k' v m :
  Some (k', v) ∈ JsMap.delete k m -> k' <> k /\ Some (k', v) ∈ m.
Proof.
  unfold JsMap.delete. induction m as [|slot m IH]; simpl; intros Hin.
  - inversion Hin.
  - apply elem_of_cons in Hin as [Heq|Hin].
    + destruct slot as [[k0 v0]|]; [|discriminate].
      destruct (Z.eqb_spec k0 k) as [->|Hne]; [discriminate|].
      injection Heq as -> ->. split; [exact Hne|apply list_elem_of_here].
    + destruct (IH Hin) as [Hne Hin']. split; [exact Hne|].
      apply list_elem_of_further, Hin'.
Qed.

Lemma elem_overwrite k v k' v' m :
  Some (k', v') ∈ JsMap.overwrite k v m ->
  (k' = k /\ v' = v) \/ (k' <> k /\ Some (k', v') ∈ m).
Proof.
  unfold JsMap.overwrite. induction m as [|slot m IH]; simpl; intros Hin.
  - inversion Hin.
  - apply elem_of_cons in Hin as [Heq|Hin].
    + destruct slot as [[k0 v0]|]; [|discriminate].
      destruct (Z.eqb_spec k0 k) as [->|Hne].
      * injection Heq as -> ->. left. split; reflexivity.
      * injection Heq as -> ->. right. split; [exact Hne|apply list_elem_of_here].
    + destruct (IH Hin) as [Hl|[Hne Hin']]; [left; exact Hl|].
      right. split; [exact Hne|apply list_elem_of_further, Hin'].
Qed.

Lemma elem_set k v k' v' m :
  Some (k', v') ∈ JsMap.set k v m ->
  (k' = k /\ v' = v) \/ (k' <> k /\ Some (k', v') ∈ m).
Proof.
  unfold JsMap.set, JsMap.has.
  destruct (JsMap.get k m) as [v0|] eqn:Hget; intros Hin.
  - apply elem_overwrite, Hin.
  - apply elem_of_app in Hin as [Hin|Hin].
    + right. split; [|exact Hin].
      intros ->. exact (get_None_elem k v' m Hget Hin).
    + apply list_elem_of_singleton in Hin. injection Hin as -> ->.
      left. split; reflexivity.
Qed.

Lemma elem_clear (x : Z * V) m : Some x ∉ JsMap.clear m.
Proof.
  unfold JsMap.clear. induction m as [|slot m IH]; simpl; intros Hin.
  - inversion Hin.
  - apply elem_of_cons in Hin as [Heq|Hin]; [discriminate|exact (IH Hin)].
Qed.

Lemma elem_update_at i (f : V -> V) k v' m :
  Some (k, v') ∈ JsMap.update_at i f m ->
  exists v, Some (k, v) ∈ m /\ (v' = v \/ v' = f v).
Proof.
  unfold JsMap.update_at. revert i.
  induction m as [|slot m IH]; intros i Hin.
  - destruct i; inversion Hin.
  - destruct i as [|i]; simpl in Hin.
    + apply elem_of_cons in Hin as [Heq|Hin].
      * destruct slot as [[k0 v0]|]; [|discriminate].
        injection Heq as -> ->. exists v0. split; [apply list_elem_of_here|].
        right. reflexivity.
      * exists v'. split; [apply list_elem_of_further, Hin|]. left. reflexivity.
    + apply elem_of_cons in Hin as [Heq|Hin].
      * exists v'. split; [rewrite Heq; apply list_elem_of_here|]. left. reflexivity.
      * destruct (IH i Hin) as (v & Hv & Hor).
        exists v. split; [apply list_elem_of_further, Hv|exact Hor].
Qed.

Lemma get_delete k m : JsMap.get k (JsMap.delete k m) = None.
Proof.
  unfold JsMap.delete. induction m as [|[[k' v']|] m IH]; simpl; auto.
  destruct (Z.eqb_spec k' k) as [->|Hne]; simpl; auto.
  destruct (Z.eqb_spec k' k); [contradiction|exact IH].
Qed.

Lemma get_delete_ne k k' m :
  k <> k' -> JsMap.get k' (JsMap.delete k m) = JsMap.get k' m.
Proof.
  intros Hne. unfold JsMap.delete.
  induction m as [|[[k0 v0]|] m IH]; simpl; auto.
  destruct (Z.eqb_spec k0 k) as [->|Hne0]; simpl.
  - destruct (Z.eqb_spec k k'); [contradiction|exact IH].
  - destruct (Z.eqb_spec k0 k'); [reflexivity|exact IH].
Qed.

Lemma delete_absent k m : JsMap.get k m = None -> JsMap.delete k m = m.
Proof.
  unfold JsMap.delete. induction m as [|[[k' v']|] m IH]; simpl; intros H; auto.
  - destruct (Z.eqb_spec k' k); [discriminate|]. f_equal. exact (IH H).
  - f_equal. exact (IH H).
Qed.

Lemma get_overwrite k v m :
  JsMap.get k m <> None -> JsMap.get k (JsMap.overwrite k v m) = Some v.
Proof.
  unfold JsMap.overwrite. induction m as [|[[k' v']|] m IH]; simpl; intros H.
  - contradiction.
  - destruct (Z.eqb_spec k' k) as [->|Hne]; simpl.
    + rewrite Z.eqb_refl. reflexivity.
    + destruct (Z.eqb_spec k' k); [contradiction|exact (IH H)].
  - exact (IH H).
Qed.


Lemma get_app k m1 m2 :
  JsMap.get k (m1 ++ m2) =
  match JsMap.get k m1 with Some v => Some v | None => JsMap.get k m2 end.
Proof.
  induction m1 as [|[[k' v']|] m1 IH]; simpl; auto.
  destruct (Z.eqb k' k); auto.
Qed.

Lemma get_set k v m : JsMap.get k (JsMap.set k v m) = Some v.
Proof.
  unfold JsMap.set, JsMap.has.
  destruct (JsMap.get k m) as [v0|] eqn:Hget.
  - apply get_overwrite. congruence.
  - rewrite get_app, Hget. simpl. rewrite Z.eqb_refl. reflexivity.
Qed.


Lemma get_clear k m : JsMap.get k (JsMap.clear m) = None.
Proof.
  unfold JsMap.clear. induction m as [|slot m IH]; simpl; auto.
Qed.

(** The keys are the tabs that have an entry. *)
Lemma keys_has k m : In k (JsMap.keys m) <-> JsMap.has k m = true.
Proof.
  unfold JsMap.keys, JsMap.entries, JsMap.has.
  induction m as [|[[k' v']|] m IH]; simpl.
  - split; [contradiction|discriminate].
  - destruct (Z.eqb_spec k' k) as [->|Hne].
    + split; auto.
    + rewrite <- IH. split; [intros [H|H]; [contradiction|exact H]|auto].
  - exact IH.
Qed.

Lemma last_keys_has k m : last (JsMap.keys m) = Some k -> JsMap.has k m = true.
Proof.
  intros H. apply keys_has. apply list_elem_of_In.
  apply last_Some in H as [l' ->]. apply elem_of_app. right.
  apply list_elem_of_singleton. reflexivity.
Qed.

End Facts.
End JsMapFacts.

Lemma get_delete_if {V} (k t : Z) (m : JsMap.t V) :
  JsMap.get t (JsMap.delete k m) = if Z.eqb t k then None else JsMap.get t m.
Proof.
  destruct (Z.eqb_spec t k) as [->|Hne].
  - apply JsMapFacts.get_delete.
  - apply JsMapFacts.get_delete_ne. congruence.
Qed.

(** ** A key is held by one slot

    [JsMap.delete] and [JsMap.overwrite] act on every slot that holds
    the key.  In the maps of the broker there is at most one. *)
Section KeysFacts.
Context {V : Type}.
Implicit Types (m : JsMap.t V) (k : Z) (v : V).

Lemma keys_app m1 m2 : JsMap.keys (m1 ++ m2) = JsMap.keys m1 ++ JsMap.keys m2.
Proof.
  unfold JsMap.keys, JsMap.entries.
  induction m1 as [|[[k v]|] m1 IH]; simpl; [reflexivity| |exact IH].
  f_equal. exact IH.
Qed.

Lemma keys_overwrite k v m : JsMap.keys (JsMap.overwrite k v m) = JsMap.keys m.
Proof.
  unfold JsMap.keys, JsMap.entries, JsMap.overwrite.
  induction m as [|[[k' v']|] m IH]; simpl; [reflexivity| |exact IH].
  destruct (Z.eqb k' k); simpl; f_equal; exact IH.
Qed.

Lemma keys_clear m : JsMap.keys (JsMap.clear m) = [].
Proof.
  unfold JsMap.keys, JsMap.entries, JsMap.clear.
  induction m as [|slot m IH]; simpl; [reflexivity|exact IH].
Qed.

Lemma keys_update_at i (f : V -> V) m :
  JsMap.keys (JsMap.update_at i f m) = JsMap.keys m.
Proof.
  unfold JsMap.keys, JsMap.entries, JsMap.update_at. revert i.
  induction m as [|[[k v]|] m IH]; intros [|i]; simpl; try reflexivity.
  - f_equal. apply IH.
  - apply IH.
Qed.

Lemma elem_keys_delete k x m :
  x ∈ JsMap.keys (JsMap.delete k m) -> x ∈ JsMap.keys m.
Proof.
  rewrite !list_elem_of_In, !JsMapFacts.keys_has. unfold JsMap.has.
  rewrite get_delete_if. destruct (Z.eqb x k); [discriminate|auto].
Qed.

Lemma unique_keys_delete k m :
  NoDup (JsMap.keys m) -> NoDup (JsMap.keys (JsMap.delete k m)).
Proof.
  induction m as [|[[k' v']|] m IH]; intros Hm.
  - exact Hm.
  - change (JsMap.keys (Some (k', v') :: m)) with (k' :: JsMap.keys m) in Hm.
    apply NoDup_cons in Hm as [Hnotin Hm].
    change (JsMap.delete k (Some (k', v') :: m))
      with ((if Z.eqb k' k then None else Some (k', v')) :: JsMap.delete k m).
    destruct (Z.eqb k' k).
    + exact (IH Hm).
    + change (NoDup (k' :: JsMap.keys (JsMap.delete k m))).
      apply NoDup_cons. split; [|exact (IH Hm)].
      intros Hin. apply Hnotin. exact (elem_keys_delete k k' m Hin).
  - exact (IH Hm).
Qed.

Lemma unique_keys_set k v m :
  NoDup (JsMap.keys m) -> NoDup (JsMap.keys (JsMap.set k v m)).
Proof.
  intros Hm. unfold JsMap.set. destruct (JsMap.has k m) eqn:Hhas.
  - rewrite keys_overwrite. exact Hm.
  - rewrite keys_app. apply NoDup_app. split; [exact Hm|].
    split; [|apply NoDup_singleton].
    intros x Hx Hk. apply list_elem_of_singleton in Hk. subst x.
    apply list_elem_of_In, JsMapFacts.keys_has in Hx. simpl in Hx. congruence.
Qed.

End KeysFacts.

(** ** Invariants of the broker

    A property of the two maps and the heap holds in every reachable
    state as soon as the few steps that write them keep it: all
    handlers are made of these steps. *)
Section Preservation.
Variable Inv : state -> Prop.

Hypothesis Inv_frame : forall s s',
  _pendingTabSelection s' = _pendingTabSelection s ->
  _activeConnections s' = _activeConnections s ->
  links s' = links s ->
  Inv s -> Inv s'.
Hypothesis Inv_delete_pending : forall k s,
  Inv s -> Inv (with_pending (JsMap.delete k) s).
Hypothesis Inv_delete_active : forall k s,
  Inv s -> Inv (with_active (JsMap.delete k) s).
Hypothesis Inv_clear_active : forall s,
  Inv s -> Inv (with_active JsMap.clear s).
Hypothesis Inv_set_timerId : forall i v s,
  Inv s -> Inv (with_pending (JsMap.update_at i (set_timerId v)) s).
Hypothesis Inv_notify_closed : forall l s,
  Inv s -> Inv (notify_closed l s).
Hypothesis Inv_connectToRelay_resumed : forall selectorTabId r s,
  Inv s -> Inv (_connectToRelay_resumed selectorTabId r s).
Hypothesis Inv_connectTab_bind : forall selectorTabId tabId windowId s,
  Inv s -> Inv (_connectTab_bind selectorTabId tabId windowId s).

Lemma preserved_updateBadge tabId text color title s :
  Inv s -> Inv (_updateBadge tabId text color title s).
Proof.
  apply Inv_frame; unfold _updateBadge;
    destruct color as [c|]; try destruct (String.eqb c ""); reflexivity.
Qed.

Lemma preserved_removeConnectedTab tabId k s :
  Inv s -> Inv (_removeConnectedTab tabId k s).
Proof.
  intros H. unfold _removeConnectedTab.
  eapply Inv_frame; [..|apply preserved_updateBadge, H]; reflexivity.
Qed.

Lemma preserved_removeConnectedTab_resumed tabId s :
  Inv s -> Inv (_removeConnectedTab_resumed tabId s).
Proof.
  unfold _removeConnectedTab_resumed.
  destruct (_lastConnectedTabId s) as [t|]; [|auto].
  destruct (Z.eqb t tabId); [|auto].
  apply Inv_frame; reflexivity.
Qed.

Lemma preserved_close l reason s : Inv s -> Inv (close l reason s).
Proof.
  intros H. unfold close. apply Inv_notify_closed.
  eapply Inv_frame; [..|exact H]; reflexivity.
Qed.

Lemma preserved_connectTab selectorTabId tabId windowId s :
  Inv s -> Inv (_connectTab selectorTabId tabId windowId s).
Proof.
  intros H. unfold _connectTab.
  destruct (JsMap.get tabId (_activeConnections s)) as [existing|];
    [|apply Inv_connectTab_bind, H].
  eapply Inv_frame; [..|apply preserved_updateBadge,
    Inv_delete_active, preserved_close, H]; reflexivity.
Qed.

Lemma preserved_connectTab_focused tabId r s :
  Inv s -> Inv (_connectTab_focused tabId r s).
Proof.
  intros H. destruct r; simpl; [|apply preserved_removeConnectedTab, H].
  eapply Inv_frame; [..|exact H]; reflexivity.
Qed.

Lemma preserved_disconnect_all i s : Inv s -> Inv (_disconnect_all i s).
Proof.
  intros H. unfold _disconnect_all.
  destruct (JsMap.next i (_activeConnections s)) as [[j [tab conn]]|].
  - apply preserved_removeConnectedTab, preserved_close, H.
  - eapply Inv_frame; [..|apply Inv_clear_active, H]; reflexivity.
Qed.

Lemma preserved_disconnect tabId s : Inv s -> Inv (_disconnect tabId s).
Proof.
  intros H. destruct tabId as [tabId|]; simpl; [|apply preserved_disconnect_all, H].
  destruct (JsMap.get tabId (_activeConnections s)) as [conn|].
  - apply preserved_removeConnectedTab, Inv_delete_active, preserved_close, H.
  - eapply Inv_frame; [..|exact H]; reflexivity.
Qed.

Lemma preserved_onTabRemoved tabId s : Inv s -> Inv (_onTabRemoved tabId s).
Proof.
  intros H. unfold _onTabRemoved.
  destruct (JsMap.get tabId (_pendingTabSelection s)) as [pending|].
  - apply preserved_close, Inv_delete_pending, H.
  - destruct (JsMap.get tabId (_activeConnections s)) as [conn|]; [|exact H].
    apply preserved_removeConnectedTab, Inv_delete_active, preserved_close, H.
Qed.

Lemma preserved_onTabActivated_from activeTabId slots : forall i s,
  Inv s -> Inv (_onTabActivated_from activeTabId i slots s).
Proof.
  induction slots as [|[[tabId pending]|] rest IH]; intros i s H; simpl.
  - exact H.
  - destruct (Z.eqb tabId activeTabId); destruct (timerId pending) as [t|].
    + apply IH, Inv_set_timerId.
      eapply Inv_frame; [..|exact H]; reflexivity.
    + apply IH, H.
    + apply IH, H.
    + apply Inv_set_timerId.
      eapply Inv_frame; [..|exact H]; reflexivity.
  - apply IH, H.
Qed.

Lemma preserved_fire_timer t s : Inv s -> Inv (fire_timer t s).
Proof.
  intros H. unfold fire_timer.
  destruct (timers s !! t) as [tm|]; [|exact H].
  destruct (armed tm); [|exact H].
  unfold timer_callback.
  assert (H' : Inv (with_pending (JsMap.delete (timer_tabId tm))
                      (with_timers (alter disarm t) s))).
  { apply Inv_delete_pending.
    eapply Inv_frame; [..|exact H]; reflexivity. }
  destruct (JsMap.has _ _); [|exact H'].
  eapply Inv_frame; [..|apply preserved_close, H']; reflexivity.
Qed.

Lemma preserved_resume t r s : Inv s -> Inv (resume t r s).
Proof.
  intros H. destruct t as [sel url|cur|sel tab win|tab|tab k]; simpl.
  - apply Inv_connectToRelay_resumed, H.
  - destruct r; eapply Inv_frame; [..|exact H| | | |exact H]; reflexivity.
  - apply Inv_connectTab_bind, H.
  - apply preserved_connectTab_focused, H.
  - pose proof (preserved_removeConnectedTab_resumed tab s H) as H'.
    destruct k as [|resp|i]; simpl.
    + exact H'.
    + eapply Inv_frame; [..|exact H']; reflexivity.
    + apply preserved_disconnect_all, H'.
Qed.

Lemma preserved_handle e s : Inv s -> Inv (handle e s).
Proof.
  intros H. destruct e as [message sender|tab|tab|tab| |t|l|i r]; simpl.
  - destruct message as [url| |tabId windowId url| | |tabId]; simpl.
    + eapply Inv_frame; [..|exact H]; reflexivity.
    + eapply Inv_frame; [..|exact H]; reflexivity.
    + apply preserved_connectTab, H.
    + eapply Inv_frame; [..|exact H]; reflexivity.
    + eapply Inv_frame; [..|exact H]; reflexivity.
    + apply preserved_disconnect, H.
  - apply preserved_onTabRemoved, H.
  - unfold _onTabUpdated. destruct (JsMap.has _ _); [|exact H].
    apply preserved_updateBadge, H.
  - apply preserved_onTabActivated_from, H.
  - eapply Inv_frame; [..|exact H]; reflexivity.
  - apply preserved_fire_timer, H.
  - apply Inv_notify_closed, H.
  - destruct (tasks s !! i) as [t|]; [|exact H].
    apply preserved_resume.
    eapply Inv_frame; [..|exact H]; reflexivity.
Qed.

Lemma preserved_reachable : Inv initial -> forall s, reachable s -> Inv s.
Proof.
  intros Hinit s Hr. induction Hr as [|e s _ IH].
  - exact Hinit.
  - apply preserved_handle, IH.
Qed.

End Preservation.

(** ** The maps and the links they refer to *)
Section Consistency.
Import JsMapFacts.

(** [links_consistent] reads the two maps and the heap only. *)
Lemma consistent_frame s s' :
  _pendingTabSelection s' = _pendingTabSelection s ->
  _activeConnections s' = _activeConnections s ->
  links s' = links s ->
  links_consistent s -> links_consistent s'.
Proof.
  unfold links_consistent. intros -> -> ->. auto.
Qed.

Lemma consistent_delete_pending k s :
  links_consistent s -> links_consistent (with_pending (JsMap.delete k) s).
Proof.
  intros [Hp Ha]. split; simpl; [|exact Ha].
  intros k' p Hin. apply elem_delete in Hin as [_ Hin]. exact (Hp k' p Hin).
Qed.

Lemma consistent_delete_active k s :
  links_consistent s -> links_consistent (with_active (JsMap.delete k) s).
Proof.
  intros [Hp Ha]. split; simpl; [exact Hp|].
  intros k' l Hin. apply elem_delete in Hin as [_ Hin]. exact (Ha k' l Hin).
Qed.

Lemma consistent_clear_active s :
  links_consistent s -> links_consistent (with_active JsMap.clear s).
Proof.
  intros [Hp Ha]. split; simpl; [exact Hp|].
  intros k l Hin. destruct (elem_clear _ _ Hin).
Qed.

Lemma consistent_update_pending i f s :
  (forall p, connection (f p) = connection p) ->
  links_consistent s -> links_consistent (with_pending (JsMap.update_at i f) s).
Proof.
  intros Hf [Hp Ha]. split; simpl; [|exact Ha].
  intros k p' Hin. apply elem_update_at in Hin as (p & Hin & [->| ->]).
  - exact (Hp k p Hin).
  - rewrite Hf. exact (Hp k p Hin).
Qed.

(** The close notification of [l] takes [l] out of the map that holds
    it, and every other entry keeps its link as it was. *)
Lemma consistent_notify_closed l s :
  links_consistent s -> links_consistent (notify_closed l s).
Proof.
  intros Hc. unfold notify_closed.
  destruct (links s !! l) as [c|] eqn:Hl; [|exact Hc].
  destruct (closed c) eqn:Hclosed; [exact Hc|].
  destruct Hc as [Hp Ha].
  assert (Hp' : forall k p, Some (k, p) ∈ _pendingTabSelection s ->
              OnClosePending k <> onclose c ->
              exists c', <[l := set_closed c]> (links s) !! connection p = Some c'
                         /\ closed c' = false /\ onclose c' = OnClosePending k).
  { intros k p Hin Hne. destruct (Hp k p Hin) as (c' & Hc' & Hopen & Hh).
    destruct (Nat.eq_dec l (connection p)) as [Heq|Hneq].
    - subst l. rewrite Hl in Hc'. injection Hc' as ->. congruence.
    - exists c'. rewrite list_lookup_insert_ne by exact Hneq. auto. }
  assert (Ha' : forall k l', Some (k, l') ∈ _activeConnections s ->
              OnCloseActive k <> onclose c ->
              exists c', <[l := set_closed c]> (links s) !! l' = Some c'
                         /\ closed c' = false /\ onclose c' = OnCloseActive k).
  { intros k l' Hin Hne. destruct (Ha k l' Hin) as (c' & Hc' & Hopen & Hh).
    destruct (Nat.eq_dec l l') as [Heq|Hneq].
    - subst l'. rewrite Hl in Hc'. injection Hc' as ->. congruence.
    - exists c'. rewrite list_lookup_insert_ne by exact Hneq. auto. }
  destruct (onclose c) as [|k0|k0] eqn:Hh; simpl.
  - split; simpl.
    + intros k p Hin. apply Hp'; [exact Hin|discriminate].
    + intros k l' Hin. apply Ha'; [exact Hin|discriminate].
  - split; simpl.
    + intros k p Hin. apply elem_delete in Hin as [Hne Hin].
      apply Hp'; [exact Hin|congruence].
    + intros k l' Hin. apply Ha'; [exact Hin|discriminate].
  - apply (preserved_removeConnectedTab _ consistent_frame). split; simpl.
    + intros k p Hin. apply Hp'; [exact Hin|discriminate].
    + intros k l' Hin. apply elem_delete in Hin as [Hne Hin].
      apply Ha'; [exact Hin|congruence].
Qed.

Lemma consistent_connectToRelay_resumed selectorTabId r s :
  links_consistent s -> links_consistent (_connectToRelay_resumed selectorTabId r s).
Proof.
  intros [Hp Ha]. unfold _connectToRelay_resumed.
  destruct r as [tabs|message]; [|split; simpl; auto].
  split; simpl.
  - intros k p Hin. apply elem_set in Hin as [[-> ->]|[Hne Hin]]; simpl.
    + eexists. rewrite list_lookup_middle by reflexivity. auto.
    + destruct (Hp k p Hin) as (c & Hc & Hrest).
      exists c. split; [apply lookup_app_l_Some, Hc|exact Hrest].
  - intros k l Hin. destruct (Ha k l Hin) as (c & Hc & Hrest).
    exists c. split; [apply lookup_app_l_Some, Hc|exact Hrest].
Qed.

Lemma consistent_connectTab_bind selectorTabId tabId windowId s :
  links_consistent s ->
  links_consistent (_connectTab_bind selectorTabId tabId windowId s).
Proof.
  intros Hc. unfold _connectTab_bind.
  destruct (JsMap.get selectorTabId (_pendingTabSelection s)) as [pending|] eqn:Hget;
    [|apply (preserved_removeConnectedTab _ consistent_frame), Hc].
  destruct Hc as [Hp Ha].
  apply get_elem in Hget.
  destruct (Hp _ _ Hget) as (c & Hc & Hopen & Hh).
  eapply consistent_frame with
    (s := with_active (JsMap.set tabId (connection pending))
            (with_links (alter (set_onclose (OnCloseActive tabId)) (connection pending))
               (with_links (alter (setTabId tabId) (connection pending))
                  (with_pending (JsMap.delete selectorTabId) s))));
    [reflexivity..|].
  split; simpl.
  - intros k p Hin. apply elem_delete in Hin as [Hne Hin].
    destruct (Hp k p Hin) as (c' & Hc' & Hrest).
    destruct (Nat.eq_dec (connection pending) (connection p)) as [Heq|Hneq].
    + rewrite <- Heq, Hc in Hc'. injection Hc' as <-.
      destruct Hrest as [_ Hh']. congruence.
    + exists c'. rewrite !list_lookup_alter_ne by exact Hneq. auto.
  - intros k l Hin. apply elem_set in Hin as [[-> ->]|[Hne Hin]].
    + rewrite !list_lookup_alter_eq, Hc. simpl. eexists. split; [reflexivity|].
      simpl. auto.
    + destruct (Ha k l Hin) as (c' & Hc' & Hrest).
      destruct (Nat.eq_dec (connection pending) l) as [Heq|Hneq].
      * rewrite <- Heq, Hc in Hc'. injection Hc' as <-.
        destruct Hrest as [_ Hh']. congruence.
      * exists c'. rewrite !list_lookup_alter_ne by exact Hneq. auto.
Qed.

Lemma reachable_consistent s : reachable s -> links_consistent s.
Proof.
  apply (preserved_reachable links_consistent consistent_frame
           consistent_delete_pending consistent_delete_active
           consistent_clear_active
           (fun i v s => consistent_update_pending i (set_timerId v) s (fun _ => eq_refl))
           consistent_notify_closed consistent_connectToRelay_resumed
           consistent_connectTab_bind).
  split; simpl; intros k x Hin; inversion Hin.
Qed.

End Consistency.

(** ** The keys of the two maps *)
Section KeysUnique.

Lemma unique_frame s s' :
  _pendingTabSelection s' = _pendingTabSelection s ->
  _activeConnections s' = _activeConnections s ->
  links s' = links s ->
  keys_unique s -> keys_unique s'.
Proof.
  unfold keys_unique. intros -> -> _. auto.
Qed.

Lemma unique_delete_pending k s :
  keys_unique s -> keys_unique (with_pending (JsMap.delete k) s).
Proof.
  intros [Hp Ha]. split; simpl; [apply unique_keys_delete, Hp|exact Ha].
Qed.

Lemma unique_delete_active k s :
  keys_unique s -> keys_unique (with_active (JsMap.delete k) s).
Proof.
  intros [Hp Ha]. split; simpl; [exact Hp|apply unique_keys_delete, Ha].
Qed.

Lemma unique_clear_active s :
  keys_unique s -> keys_unique (with_active JsMap.clear s).
Proof.
  intros [Hp Ha]. split; simpl; [exact Hp|].
  rewrite keys_clear. apply NoDup_nil. exact I.
Qed.

Lemma unique_set_timerId i v s :
  keys_unique s ->
  keys_unique (with_pending (JsMap.update_at i (set_timerId v)) s).
Proof.
  intros [Hp Ha]. split; simpl; [|exact Ha].
  rewrite keys_update_at. exact Hp.
Qed.

Lemma unique_notify_closed l s :
  keys_unique s -> keys_unique (notify_closed l s).
Proof.
  intros H. unfold notify_closed.
  destruct (links s !! l) as [c|]; [|exact H].
  destruct (closed c); [exact H|].
  assert (H' : keys_unique (with_links (fun h => <[l := set_closed c]> h) s))
    by exact H.
  destruct (onclose c) as [|k|k]; simpl.
  - exact H'.
  - apply unique_delete_pending, H'.
  - apply (preserved_removeConnectedTab _ unique_frame), unique_delete_active, H'.
Qed.

Lemma unique_connectToRelay_resumed selectorTabId r s :
  keys_unique s -> keys_unique (_connectToRelay_resumed selectorTabId r s).
Proof.
  intros [Hp Ha]. unfold _connectToRelay_resumed.
  destruct r as [tabs|message]; [|split; assumption].
  split; simpl; [apply unique_keys_set, Hp|exact Ha].
Qed.

Lemma unique_connectTab_bind selectorTabId tabId windowId s :
  keys_unique s -> keys_unique (_connectTab_bind selectorTabId tabId windowId s).
Proof.
  intros H. unfold _connectTab_bind.
  destruct (JsMap.get selectorTabId (_pendingTabSelection s)) as [pending|];
    [|apply (preserved_removeConnectedTab _ unique_frame), H].
  destruct H as [Hp Ha]. split; simpl.
  - apply unique_keys_delete, Hp.
  - apply unique_keys_set, Ha.
Qed.

(** In every reachable state each tab is the key of at most one slot
    of the pending map and of at most one slot of the active map. *)
Lemma reachable_keys_unique s : reachable s -> keys_unique s.
Proof.
  apply (preserved_reachable keys_unique unique_frame
           unique_delete_pending unique_delete_active unique_clear_active
           unique_set_timerId unique_notify_closed
           unique_connectToRelay_resumed unique_connectTab_bind).
  split; apply NoDup_nil; exact I.
Qed.

End KeysUnique.

(** ** Reachability *)

Lemma reachable_run events : forall s, reachable s -> reachable (run events s).
Proof.
  unfold run. induction events as [|e events IH]; intros s Hs; simpl.
  - exact Hs.
  - apply IH, reachable_handle, Hs.
Qed.

Lemma reachable_settle fuel : forall s, reachable s -> reachable (settle fuel s).
Proof.
  induction fuel as [|fuel IH]; intros s Hs; cbn [settle].
  - exact Hs.
  - destruct (tasks s); [exact Hs|]. apply IH, reachable_handle, Hs.
Qed.

(** ** Invariant of the two maps *)

(** C1. In every state the broker can reach, whatever the events and
    the order in which suspended handlers resume, a relay link is
    referenced by at most one of the pending map and the active map,
    and a closed link is referenced by neither. *)
Theorem link_in_at_most_one_map (s : state) (l : link) :
  reachable s ->
  ~ (in_pending l s /\ in_active l s)
  /\ (is_closed l s -> ~ in_pending l s /\ ~ in_active l s).
Proof.
  intros Hr. destruct (reachable_consistent s Hr) as [Hp Ha]. split.
  - intros [(k & p & Hin & Hl) (k' & Hin')]. subst l.
    destruct (Hp k p Hin) as (c & Hc & _ & Hh).
    destruct (Ha k' _ Hin') as (c' & Hc' & _ & Hh').
    congruence.
  - intros (c & Hc & Hclosed). split.
    + intros (k & p & Hin & Hl). subst l.
      destruct (Hp k p Hin) as (c' & Hc' & Hopen & _). congruence.
    + intros (k & Hin).
      destruct (Ha k l Hin) as (c' & Hc' & Hopen & _). congruence.
Qed.

Lemma link_in_at_most_one_map_witness :
  is_closed 0 disconnected
  /\ ~ (in_pending 0 disconnected /\ in_active 0 disconnected)
  /\ (is_closed 0 disconnected ->
      ~ in_pending 0 disconnected /\ ~ in_active 0 disconnected).
Proof.
  split.
  - eexists. split; reflexivity.
  - apply (link_in_at_most_one_map disconnected 0%nat).
    apply reachable_settle, reachable_run, reachable_settle, reachable_run.
    apply reachable_initial.
Defined.

(** ** Requests that change nothing *)

(** C8. [disconnect(tabId)] for a tab without active connection
    answers [{ success: true }] and does nothing else: no link is
    closed, no badge call is made, no error is reported, and the maps,
    [_lastConnectedTabId], the links, the timers and the suspended
    handlers are as before. *)
Theorem disconnect_absent_tab (s : state) (tabId : Z) (sender : MessageSender) :
  JsMap.get tabId (_activeConnections s) = None ->
  let s' := handle (Message (disconnect (Some tabId)) sender) s in
  trace s' = trace s ++ [SendResponse Success]
  /\ _activeConnections s' = _activeConnections s
  /\ _pendingTabSelection s' = _pendingTabSelection s
  /\ _lastConnectedTabId s' = _lastConnectedTabId s
  /\ links s' = links s
  /\ timers s' = timers s
  /\ tasks s' = tasks s.
Proof.
  intros Hget. simpl. rewrite Hget. simpl. repeat split; reflexivity.
Qed.

Lemma disconnect_absent_tab_witness :
  let s' := handle (Message (disconnect (Some 3)) (from_tab 1)) one_active in
  trace s' = trace one_active ++ [SendResponse Success]
  /\ _activeConnections s' = _activeConnections one_active
  /\ _pendingTabSelection s' = _pendingTabSelection one_active
  /\ _lastConnectedTabId s' = _lastConnectedTabId one_active
  /\ links s' = links one_active
  /\ timers s' = timers one_active
  /\ tasks s' = tasks one_active.
Proof.
  apply (disconnect_absent_tab one_active 3 (from_tab 1)). reflexivity.
Defined.

(** C9. [getConnectionStatus] answers with [_lastConnectedTabId] and
    the ids of all tabs that have an active connection,
    [getAllConnections] with one [{ tabId }] per active connection.
    Both answer at once in every state, and the answer is the only
    call they make: the two maps, [_lastConnectedTabId], the links,
    the timers and the suspended handlers are unchanged. *)
Theorem status_queries_are_reads (s : state) (sender : MessageSender) :
  let s1 := handle (Message getConnectionStatus sender) s in
  let s2 := handle (Message getAllConnections sender) s in
  trace s1
    = trace s ++ [SendResponse (ConnectionStatus (_lastConnectedTabId s)
                                  (JsMap.keys (_activeConnections s)))]
  /\ trace s2
    = trace s ++ [SendResponse (AllConnections (JsMap.keys (_activeConnections s)))]
  /\ (forall t, In t (JsMap.keys (_activeConnections s))
                <-> JsMap.get t (_activeConnections s) <> None)
  /\ length (JsMap.keys (_activeConnections s)) = JsMap.size (_activeConnections s)
  /\ same_broker_state s s1 /\ timers s1 = timers s /\ tasks s1 = tasks s
  /\ same_broker_state s s2 /\ timers s2 = timers s /\ tasks s2 = tasks s.
Proof.
  cbv zeta. unfold same_broker_state. simpl.
  split; [reflexivity|]. split; [reflexivity|]. split; [|split].
  - intros t. rewrite JsMapFacts.keys_has. unfold JsMap.has.
    destruct (JsMap.get t _); split; congruence.
  - unfold JsMap.keys, JsMap.size. apply length_map.
  - repeat split; reflexivity.
Qed.

(** ** Timers *)

(** The guard of lines 219-220 looks for an entry under the tab id.
    When a timer fires while the pending map has no entry for its
    selector tab, the callback does nothing: no link is closed, no
    [connectionTimeout] is sent, and maps, links and
    [_lastConnectedTabId] stay as they are.  Whenever the firing does
    make a call, the timer was armed and the map had an entry under
    the tab id of the timer at that moment, be it the entry the timer
    was armed for or a later one. *)
Theorem timer_after_removal_is_inert (s : state) (t : timer_id) (tm : Timer) :
  timers s !! t = Some tm ->
  let s' := handle (TimerFired t) s in
  (JsMap.get (timer_tabId tm) (_pendingTabSelection s) = None ->
     trace s' = trace s
     /\ links s' = links s
     /\ _pendingTabSelection s' = _pendingTabSelection s
     /\ _activeConnections s' = _activeConnections s
     /\ _lastConnectedTabId s' = _lastConnectedTabId s
     /\ tasks s' = tasks s)
  /\ (trace s' <> trace s ->
      armed tm = true
      /\ JsMap.has (timer_tabId tm) (_pendingTabSelection s) = true).
Proof.
  intros Ht. simpl. unfold fire_timer. rewrite Ht. split.
  - intros Hget. destruct (armed tm); [|repeat split; reflexivity].
    unfold timer_callback, JsMap.has. simpl. rewrite Hget. simpl.
    rewrite JsMapFacts.delete_absent by exact Hget. repeat split; reflexivity.
  - destruct (armed tm); [|intros H; destruct (H eq_refl)].
    unfold timer_callback, JsMap.has. simpl.
    destruct (JsMap.get _ _); [auto|].
    simpl. intros H. destruct (H eq_refl).
Qed.

Lemma timer_after_removal_is_inert_witness :
  let s := run [TabRemoved 1] pending_armed in
  let s' := handle (TimerFired 0) s in
  timer_is_armed 0 s
  /\ trace s' = trace s
  /\ links s' = links s
  /\ _pendingTabSelection s' = _pendingTabSelection s
  /\ _activeConnections s' = _activeConnections s
  /\ _lastConnectedTabId s' = _lastConnectedTabId s
  /\ tasks s' = tasks s.
Proof.
  split.
  - eexists. split; reflexivity.
  - apply (timer_after_removal_is_inert (run [TabRemoved 1] pending_armed) 0%nat
             {| timer_tabId := 1; timer_connection := 0%nat; armed := true |}).
    + reflexivity.
    + reflexivity.
Defined.

(** [_onTabActivated] arms at most one timer. *)
Lemma onTabActivated_from_timers activeTabId slots : forall i s,
  (length (timers (_onTabActivated_from activeTabId i slots s))
   <= S (length (timers s)))%nat.
Proof.
  induction slots as [|[[tabId pending]|] rest IH]; intros i s; simpl.
  - lia.
  - destruct (Z.eqb tabId activeTabId); destruct (timerId pending) as [t|].
    + etransitivity; [apply IH|]. simpl. rewrite length_alter. lia.
    + apply IH.
    + apply IH.
    + simpl. rewrite length_app. simpl. lia.
  - apply IH.
Qed.

(** C4 (the code differs).  With tabs 1 and 2 pending, neither with a
    timer, and tab 3 reported as focused, [_onTabActivated] arms the
    timer of tab 1 and returns (line 225): tab 2 is left without a
    timer.  In every state one activation event arms at most one
    timer. *)
Theorem activation_arms_first_entry_only :
  JsMap.get 1 (_pendingTabSelection two_pending)
    = Some {| connection := 0; timerId := None |}
  /\ JsMap.get 2 (_pendingTabSelection two_pending)
    = Some {| connection := 1; timerId := None |}
  /\ (let s' := handle (TabActivated 3) two_pending in
      JsMap.get 1 (_pendingTabSelection s')
        = Some {| connection := 0; timerId := Some 0%nat |}
      /\ JsMap.get 2 (_pendingTabSelection s')
        = Some {| connection := 1; timerId := None |}
      /\ timers s' = [{| timer_tabId := 1; timer_connection := 0; armed := true |}])
  /\ (forall s focused,
        (length (timers (handle (TabActivated focused) s))
         <= S (length (timers s)))%nat).
Proof.
  repeat split; try reflexivity.
  intros s focused. apply onTabActivated_from_timers.
Qed.

(** C5 (the code differs).  Tabs 1 and 2 are pending, tab 1 first in
    the map and without a timer, tab 2 with timer 1 armed.  When tab 2
    is reported as focused, the loop meets tab 1 first, arms a timer
    for it and returns (line 225) before it reaches tab 2: timer 1
    stays armed, and when it fires the entry of tab 2 is removed, its
    link is closed and tab 2 is sent [connectionTimeout]. *)
Theorem focus_does_not_cancel_behind_unarmed_entry :
  reachable second_armed
  /\ JsMap.get 1 (_pendingTabSelection second_armed)
     = Some {| connection := 0; timerId := None |}
  /\ JsMap.get 2 (_pendingTabSelection second_armed)
     = Some {| connection := 1; timerId := Some 1%nat |}
  /\ timer_is_armed 1 second_armed
  /\ (let s' := handle (TabActivated 2) second_armed in
      JsMap.get 2 (_pendingTabSelection s')
        = Some {| connection := 1; timerId := Some 1%nat |}
      /\ timers s' !! 1%nat
         = Some {| timer_tabId := 2; timer_connection := 1; armed := true |}
      /\ (let s'' := handle (TimerFired 1) s' in
          JsMap.get 2 (_pendingTabSelection s'') = None
          /\ is_closed 1 s''
          /\ trace s'' = trace s'
               ++ [LinkClose 1 "Tab has been inactive for 5 seconds";
                   TabsSendMessage 2 "connectionTimeout"])).
Proof.
  split; [|split; [|split; [|split]]].
  - apply reachable_run, reachable_run, reachable_initial.
  - reflexivity.
  - reflexivity.
  - eexists. split; reflexivity.
  - repeat split; try reflexivity. eexists. split; reflexivity.
Qed.

(** C3 (the code differs).  When the handshake of [_connectToRelay]
    completes for a selector tab that already has a pending entry,
    line 112 stores the new link over the old one and nothing closes
    the old link: it stays on the heap as it was, no [close] is called
    and the only call made is the response.  The pending entry of the
    selector tab does hold the newly opened link. *)
Theorem relay_overwrites_pending_link
    (s : state) (i : nat) (selectorTabId : Z) (url : string)
    (old : PendingSelection) (c : RelayConnection) (tabs : list Tab) :
  tasks s !! i = Some (AwaitSocketOpen selectorTabId url) ->
  JsMap.get selectorTabId (_pendingTabSelection s) = Some old ->
  links s !! connection old = Some c ->
  let s' := handle (Resume i (Fulfilled tabs)) s in
  links s' !! connection old = Some c
  /\ trace s' = trace s ++ [SendResponse Success]
  /\ JsMap.get selectorTabId (_pendingTabSelection s')
     = Some {| connection := length (links s); timerId := None |}
  /\ connection old <> length (links s).
Proof.
  intros Ht Hget Hc. simpl. rewrite Ht. simpl.
  split; [apply lookup_app_l_Some, Hc|].
  split; [reflexivity|].
  split; [apply JsMapFacts.get_set|].
  apply lookup_lt_Some in Hc. lia.
Qed.

Lemma relay_overwrites_pending_link_witness :
  let s := handle (Message (connectToMCPRelay relay_url) (from_tab 1)) (one_pending 1) in
  let s' := handle (Resume 0 (Fulfilled [])) s in
  links s' !! 0%nat
    = Some {| closed := false; boundTab := None; onclose := OnClosePending 1 |}
  /\ trace s' = trace s ++ [SendResponse Success]
  /\ JsMap.get 1 (_pendingTabSelection s')
     = Some {| connection := length (links s); timerId := None |}
  /\ 0%nat <> length (links s).
Proof.
  apply (relay_overwrites_pending_link
           (handle (Message (connectToMCPRelay relay_url) (from_tab 1)) (one_pending 1))
           0 1 relay_url {| connection := 0; timerId := None |}
           {| closed := false; boundTab := None; onclose := OnClosePending 1 |} []).
  - reflexivity.
  - reflexivity.
  - reflexivity.
Defined.

(** What the leak of C3 leads to: the link left open still has the
    [onclose] of lines 107-111.  When it closes, the entry of tab 1,
    which by now holds the new link, is deleted; the new link is open
    and no map refers to it. *)
Remark leaked_link_removes_new_entry :
  let s := run (handshake 1 ++ handshake 1) initial in
  let s' := handle (SocketClosed 0) s in
  JsMap.get 1 (_pendingTabSelection s) = Some {| connection := 1; timerId := None |}
  /\ JsMap.get 1 (_pendingTabSelection s') = None
  /\ links s' !! 1%nat
     = Some {| closed := false; boundTab := None; onclose := OnClosePending 1 |}.
Proof.
  repeat split; reflexivity.
Qed.

(** ** Computing with suspended handlers *)

Lemma close_open_link l reason s c :
  links s !! l = Some c -> closed c = false ->
  close l reason s
  = run_onclose (onclose c)
      (with_links (fun h => <[l := set_closed c]> h) (emit (LinkClose l reason) s)).
Proof.
  intros Hl Hopen. unfold close, notify_closed. simpl. rewrite Hl, Hopen. reflexivity.
Qed.

Lemma notify_open_link l s c :
  links s !! l = Some c -> closed c = false ->
  notify_closed l s
  = run_onclose (onclose c) (with_links (fun h => <[l := set_closed c]> h) s).
Proof.
  intros Hl Hopen. unfold notify_closed. rewrite Hl, Hopen. reflexivity.
Qed.

Lemma active_link_open s tab l :
  links_consistent s -> JsMap.get tab (_activeConnections s) = Some l ->
  exists c, links s !! l = Some c /\ closed c = false /\ onclose c = OnCloseActive tab.
Proof.
  intros [_ Ha] Hget. apply Ha, JsMapFacts.get_elem, Hget.
Qed.

Lemma pending_link_open s sel p :
  links_consistent s -> JsMap.get sel (_pendingTabSelection s) = Some p ->
  exists c, links s !! connection p = Some c
            /\ closed c = false /\ onclose c = OnClosePending sel.
Proof.
  intros [Hp _] Hget. apply Hp, JsMapFacts.get_elem, Hget.
Qed.

(** [_removeConnectedTab], once resumed, writes [_lastConnectedTabId]
    and nothing else. *)
Lemma resumed_record act lst pend lks tms tks tr tab :
  _removeConnectedTab_resumed tab
    {| _activeConnections := act; _lastConnectedTabId := lst;
       _pendingTabSelection := pend; links := lks; timers := tms;
       tasks := tks; trace := tr |}
  = {| _activeConnections := act;
       _lastConnectedTabId :=
         match lst with
         | Some t => if Z.eqb t tab then last (JsMap.keys act) else Some t
         | None => None
         end;
       _pendingTabSelection := pend; links := lks; timers := tms;
       tasks := tks; trace := tr |}.
Proof.
  unfold _removeConnectedTab_resumed. simpl.
  destruct lst as [t|]; [destruct (Z.eqb t tab)|]; reflexivity.
Qed.

Lemma recompute_stable (tabId : Z) (x : option Z) :
  match x with
  | Some t => if Z.eqb t tabId then x else Some t
  | None => None
  end = x.
Proof.
  destruct x as [t|]; [destruct (Z.eqb t tabId)|]; reflexivity.
Qed.

Lemma last_keys_valid {V} (m : JsMap.t V) :
  match last (JsMap.keys m) with
  | Some t => JsMap.has t m = true
  | None => JsMap.keys m = []
  end.
Proof.
  destruct (last (JsMap.keys m)) as [t|] eqn:E.
  - apply JsMapFacts.last_keys_has, E.
  - apply last_None, E.
Qed.

(** [settle] resumes the oldest suspended handler, and stops when
    none is left. *)
Lemma settle_step fuel s t q :
  tasks s = t :: q ->
  settle (S fuel) s
  = settle fuel (resume t (Fulfilled []) (with_tasks (delete 0%nat) s)).
Proof.
  intros H. cbn [settle]. rewrite H. cbn [handle]. rewrite H. reflexivity.
Qed.

Lemma settle_done fuel s : tasks s = [] -> settle fuel s = s.
Proof.
  intros H. destruct fuel; cbn [settle]; [|rewrite H]; reflexivity.
Qed.

(** A state built by the handlers from a state given field by field
    is brought to that form. *)
Ltac norm :=
  cbv [with_active with_last with_pending with_links with_timers with_tasks
       emit suspend _removeConnectedTab _updateBadge _addConnectedTab
       _connectTab_focused run_onclose continue resume default
       _activeConnections _lastConnectedTabId _pendingTabSelection
       links timers tasks trace];
  cbn [app delete list_delete String.eqb Ascii.eqb Bool.eqb];
  rewrite ?resumed_record, ?Z.eqb_refl.

Ltac settle_all :=
  norm; repeat (erewrite settle_step by reflexivity; norm; norm);
  rewrite settle_done by reflexivity.

(** A timer whose selector tab has no pending entry fires in vain. *)
Lemma fire_timer_no_entry s t tm :
  timers s !! t = Some tm ->
  JsMap.get (timer_tabId tm) (_pendingTabSelection s) = None ->
  fire_timer t s = if armed tm then with_timers (alter disarm t) s else s.
Proof.
  intros Ht Hget. unfold fire_timer. rewrite Ht.
  destruct (armed tm); [|reflexivity].
  unfold timer_callback, JsMap.has. simpl. rewrite Hget.
  destruct s. unfold with_pending. simpl in *.
  rewrite JsMapFacts.delete_absent by exact Hget. reflexivity.
Qed.

Lemma fires_without_effect_no_entry s t tm :
  timers s !! t = Some tm ->
  JsMap.get (timer_tabId tm) (_pendingTabSelection s) = None ->
  fires_without_effect t s.
Proof.
  intros Ht Hget. unfold fires_without_effect, same_broker_state. simpl.
  rewrite (fire_timer_no_entry s t tm Ht Hget).
  destruct (armed tm); repeat split; reflexivity.
Qed.

(** ** The legacy scalar *)

(** What follows once the entry of [tabId] is gone from the active map
    and [_lastConnectedTabId] has been recomputed from its keys. *)
Lemma recomputed_last_tab (s s' : state) (tabId : Z) :
  (forall t, JsMap.get t (_activeConnections s')
             = if Z.eqb t tabId then None else JsMap.get t (_activeConnections s)) ->
  _lastConnectedTabId s' = last (JsMap.keys (_activeConnections s')) ->
  last_tab_valid s'
  /\ (forall other,
        other <> tabId ->
        (forall t, In t (JsMap.keys (_activeConnections s)) <-> t = tabId \/ t = other) ->
        _lastConnectedTabId s' = Some other)
  /\ ((forall t, In t (JsMap.keys (_activeConnections s)) -> t = tabId) ->
      _lastConnectedTabId s' = None).
Proof.
  intros Hact Hnew.
  assert (Hvalid : last_tab_valid s').
  { unfold last_tab_valid. rewrite Hnew. apply last_keys_valid. }
  assert (Hkept : forall t, JsMap.has t (_activeConnections s') = true ->
            t <> tabId /\ In t (JsMap.keys (_activeConnections s))).
  { intros t Ht. unfold JsMap.has in Ht. rewrite Hact in Ht.
    destruct (Z.eqb_spec t tabId) as [Heq|Hne]; [discriminate|].
    split; [exact Hne|]. apply JsMapFacts.keys_has. exact Ht. }
  split; [exact Hvalid|].
  unfold last_tab_valid in Hvalid. split.
  - intros other Hne Hkeys.
    destruct (_lastConnectedTabId s') as [t|].
    + destruct (Hkept t Hvalid) as [Hne' Hin].
      apply Hkeys in Hin as [->| ->]; [contradiction|reflexivity].
    + assert (Hother : JsMap.has other (_activeConnections s') = true).
      { unfold JsMap.has. rewrite Hact.
        destruct (Z.eqb_spec other tabId) as [Heq|_]; [contradiction|].
        assert (Hin : In other (JsMap.keys (_activeConnections s)))
          by (apply Hkeys; right; reflexivity).
        apply JsMapFacts.keys_has in Hin. exact Hin. }
      apply JsMapFacts.keys_has in Hother. rewrite Hvalid in Hother. destruct Hother.
  - intros Honly.
    destruct (_lastConnectedTabId s') as [t|]; [|reflexivity].
    destruct (Hkept t Hvalid) as [Hne Hin]. destruct (Hne (Honly t Hin)).
Qed.

(** The three ways in which the active connection of [tabId] goes. *)
Lemma removal_settles
    (s : state) (tabId : Z) (conn : link) (sender : MessageSender) (e : event) :
  links_consistent s -> quiescent s ->
  _lastConnectedTabId s = Some tabId ->
  JsMap.get tabId (_activeConnections s) = Some conn ->
  e = Message (disconnect (Some tabId)) sender
  \/ (e = TabRemoved tabId /\ JsMap.get tabId (_pendingTabSelection s) = None)
  \/ e = SocketClosed conn ->
  quiescent (settle 2 (handle e s))
  /\ (forall t, JsMap.get t (_activeConnections (settle 2 (handle e s)))
                = if Z.eqb t tabId then None else JsMap.get t (_activeConnections s))
  /\ _lastConnectedTabId (settle 2 (handle e s))
     = last (JsMap.keys (_activeConnections (settle 2 (handle e s)))).
Proof.
  intros Hcons Hq Hlast Hget He.
  destruct (active_link_open s tabId conn Hcons Hget) as (c & Hc & Hopen & Hh).
  clear Hcons.
  destruct He as [->|[[-> Hpend]| ->]].
  - cbn [handle _onMessage _disconnect]. rewrite Hget.
    rewrite (close_open_link _ _ _ c Hc Hopen), Hh.
    destruct s as [act lst pend lks tms tks tr].
    unfold quiescent in Hq. simpl in Hq, Hlast, Hget, Hc. subst tks lst.
    settle_all. unfold quiescent. norm. rewrite recompute_stable.
    split; [reflexivity|]. split; [|reflexivity].
    intros t. rewrite !get_delete_if. destruct (Z.eqb t tabId); reflexivity.
  - cbn [handle]. unfold _onTabRemoved. rewrite Hpend, Hget.
    rewrite (close_open_link _ _ _ c Hc Hopen), Hh.
    destruct s as [act lst pend lks tms tks tr].
    unfold quiescent in Hq. simpl in Hq, Hlast, Hget, Hc. subst tks lst.
    settle_all. unfold quiescent. norm. rewrite recompute_stable.
    split; [reflexivity|]. split; [|reflexivity].
    intros t. rewrite !get_delete_if. destruct (Z.eqb t tabId); reflexivity.
  - cbn [handle]. rewrite (notify_open_link _ _ c Hc Hopen), Hh.
    destruct s as [act lst pend lks tms tks tr].
    unfold quiescent in Hq. simpl in Hq, Hlast, Hget, Hc. subst tks lst.
    settle_all. unfold quiescent. norm.
    split; [reflexivity|]. split; [|reflexivity].
    intros t. apply get_delete_if.
Qed.

(** C7. Let tab [tabId] be [_lastConnectedTabId] and hold an active
    connection in a reachable state with no handler suspended.  When
    that connection is removed, by [disconnect(tabId)], by the tab
    closing or by the relay closing the link, and the handler has run
    to its end, the connection of [tabId] is gone, the other active
    connections are kept, and [_lastConnectedTabId] is a tab that still
    has an active connection, or [null] when none is left.  If the
    active tabs were [tabId] and one other tab, it is that other tab
    (tabs 3 and 7 with 7 removed give 3); if [tabId] was the only one,
    it is [null]. *)
Theorem last_tab_reset_on_removal
    (s : state) (tabId : Z) (conn : link) (sender : MessageSender) (e : event) :
  reachable s -> quiescent s ->
  _lastConnectedTabId s = Some tabId ->
  JsMap.get tabId (_activeConnections s) = Some conn ->
  e = Message (disconnect (Some tabId)) sender
  \/ (e = TabRemoved tabId /\ JsMap.get tabId (_pendingTabSelection s) = None)
  \/ e = SocketClosed conn ->
  let s' := settle 2 (handle e s) in
  quiescent s'
  /\ (forall t, JsMap.get t (_activeConnections s')
                = if Z.eqb t tabId then None else JsMap.get t (_activeConnections s))
  /\ last_tab_valid s'
  /\ (forall other,
        other <> tabId ->
        (forall t, In t (JsMap.keys (_activeConnections s)) <-> t = tabId \/ t = other) ->
        _lastConnectedTabId s' = Some other)
  /\ ((forall t, In t (JsMap.keys (_activeConnections s)) -> t = tabId) ->
      _lastConnectedTabId s' = None).
Proof.
  intros Hr Hq Hlast Hget He s'.
  destruct (removal_settles s tabId conn sender e
              (reachable_consistent s Hr) Hq Hlast Hget He) as (Hquiet & Hact & Hnew).
  fold s' in Hquiet, Hact, Hnew. clearbody s'.
  split; [exact Hquiet|]. split; [exact Hact|].
  exact (recomputed_last_tab s s' tabId Hact Hnew).
Qed.

Lemma last_tab_reset_on_removal_witness :
  _lastConnectedTabId two_active = Some 7
  /\ JsMap.keys (_activeConnections two_active) = [3; 7]
  /\ _lastConnectedTabId
       (settle 2 (handle (Message (disconnect (Some 7)) (from_tab 1)) two_active))
     = Some 3.
Proof.
  split; [reflexivity|]. split; [reflexivity|].
  assert (Hr : reachable two_active).
  { apply reachable_settle, reachable_run, reachable_settle, reachable_run.
    apply reachable_initial. }
  destruct (last_tab_reset_on_removal two_active 7 1%nat (from_tab 1)
              (Message (disconnect (Some 7)) (from_tab 1))
              Hr eq_refl eq_refl eq_refl (or_introl eq_refl))
    as (_ & _ & _ & Hother & _).
  apply (Hother 3).
  - lia.
  - intros t. simpl. intuition lia.
Defined.

(** ** Binding without a pending link *)

(** C2, as stated, fails.  Tab 7 holds the only active connection
    (link 0) and is [_lastConnectedTabId]; tab 1 has no pending entry.
    [connectToTab] from tab 1 for tab 7 fails with the error of line
    139, but lines 126-135 ran first: link 0 is closed, the active map
    has lost tab 7 and [_lastConnectedTabId] is [null]. *)
Lemma bind_without_pending_changes_state :
  reachable one_active /\ quiescent one_active
  /\ JsMap.get 1 (_pendingTabSelection one_active) = None
  /\ (let s' := settle 3 (handle (bind 1 7) one_active) in
      last (trace s')
        = Some (SendResponse (Failure "No active MCP relay connection"))
      /\ JsMap.get 7 (_activeConnections one_active) = Some 0%nat
      /\ JsMap.get 7 (_activeConnections s') = None
      /\ ~ is_closed 0 one_active
      /\ is_closed 0 s'
      /\ In (LinkClose 0 "New connection requested for this tab") (trace s')
      /\ _lastConnectedTabId one_active = Some 7
      /\ _lastConnectedTabId s' = None
      /\ ~ same_broker_state one_active s').
Proof.
  split; [|split; [reflexivity|split; [reflexivity|]]].
  - apply reachable_settle, reachable_run, reachable_initial.
  - cbv zeta. repeat split; try reflexivity.
    + intros (c & Hc & Hclosed). vm_compute in Hc. injection Hc as <-. discriminate.
    + eexists. split; reflexivity.
    + vm_compute. tauto.
    + intros (Hact & _). vm_compute in Hact. discriminate.
Qed.

(** C2, amended.  In a reachable state with no handler suspended and
    no pending entry for the selector tab, [connectToTab] ends with
    the error "No active MCP relay connection".  It creates no active
    connection and leaves the pending map, the timers and the active
    connections of the other tabs as they are.  An active connection
    that the target tab already has is closed and evicted (lines
    126-135 run before the pending entry is looked up); when the
    target tab has none, the active map and the links are unchanged.
    In both cases the badge text of the target tab is reset by
    [setBadgeText(tabId, '')].  [_lastConnectedTabId] keeps its value
    unless it is the target tab, and is then recomputed from the
    active tabs that remain. *)
Theorem bind_without_pending
    (s : state) (sender : MessageSender) (tabId windowId : option Z) (url : string) :
  reachable s -> quiescent s ->
  JsMap.get (sender_tabId sender) (_pendingTabSelection s) = None ->
  let target := js_or tabId (sender_tabId sender) in
  let s' := settle 3 (handle (Message (connectToTab tabId windowId url) sender) s) in
  quiescent s'
  /\ last (trace s') = Some (SendResponse (Failure "No active MCP relay connection"))
  /\ _pendingTabSelection s' = _pendingTabSelection s
  /\ timers s' = timers s
  /\ (forall t, JsMap.get t (_activeConnections s')
                = if Z.eqb t target then None else JsMap.get t (_activeConnections s))
  /\ (forall existing,
        JsMap.get target (_activeConnections s) = Some existing ->
        is_closed existing s'
        /\ In (LinkClose existing "New connection requested for this tab") (trace s')
        /\ forall l, l <> existing -> links s' !! l = links s !! l)
  /\ (JsMap.get target (_activeConnections s) = None ->
      _activeConnections s' = _activeConnections s /\ links s' = links s)
  /\ _lastConnectedTabId s'
     = match _lastConnectedTabId s with
       | Some t =>
           if Z.eqb t target then last (JsMap.keys (_activeConnections s')) else Some t
       | None => None
       end
  /\ (exists calls,
        trace s' = trace s ++ calls /\ In (SetBadgeText target "") calls).
Proof.
  intros Hr Hq Hpend target s'. subst s'.
  pose proof (reachable_consistent s Hr) as Hcons. clear Hr.
  cbn [handle _onMessage]. fold target. generalize target. clear target.
  intros target. unfold _connectTab.
  destruct (JsMap.get target (_activeConnections s)) as [existing|] eqn:Hact.
  - destruct (active_link_open s target existing Hcons Hact) as (c & Hc & Hopen & Hh).
    clear Hcons. rewrite (close_open_link _ _ _ c Hc Hopen), Hh.
    destruct s as [act lst pend lks tms tks tr].
    unfold quiescent in Hq. simpl in Hq, Hpend, Hact, Hc. subst tks.
    norm. erewrite settle_step by reflexivity. norm.
    erewrite settle_step by reflexivity. norm.
    unfold _connectTab_bind. cbn [_pendingTabSelection]. rewrite Hpend. norm.
    erewrite settle_step by reflexivity. norm.
    rewrite settle_done by reflexivity.
    unfold quiescent, is_closed. norm.
    split; [reflexivity|]. split; [apply last_snoc|].
    split; [reflexivity|]. split; [reflexivity|].
    split; [intros t; rewrite !get_delete_if; destruct (Z.eqb t target); reflexivity|].
    split; [|split; [discriminate|]].
    + intros existing' [= <-]. split; [|split].
      * exists (set_closed c). split; [|reflexivity].
        apply list_lookup_insert_eq. exact (lookup_lt_Some _ _ _ Hc).
      * rewrite !in_app_iff. simpl. tauto.
      * intros l Hne. apply list_lookup_insert_ne. congruence.
    + split.
      * destruct lst as [t|]; [|reflexivity].
        destruct (Z.eqb t target) eqn:Heq; [apply recompute_stable|].
        rewrite Heq. reflexivity.
      * rewrite <- !app_assoc. eexists. split; [reflexivity|].
        rewrite !in_app_iff. simpl. tauto.
  - clear Hcons. unfold _connectTab_bind. rewrite Hpend.
    destruct s as [act lst pend lks tms tks tr].
    unfold quiescent in Hq. simpl in Hq, Hpend, Hact. subst tks.
    norm. erewrite settle_step by reflexivity. norm.
    rewrite settle_done by reflexivity.
    unfold quiescent. norm.
    split; [reflexivity|]. split; [apply last_snoc|].
    split; [reflexivity|]. split; [reflexivity|].
    split; [|split; [discriminate|split; [split; reflexivity|split; [reflexivity|]]]].
    + intros t. destruct (Z.eqb_spec t target) as [->|_]; [exact Hact|reflexivity].
    + rewrite <- !app_assoc. eexists. split; [reflexivity|].
      rewrite !in_app_iff. simpl. tauto.
Qed.

Lemma bind_without_pending_witness :
  let s' := settle 3 (handle (bind 1 7) one_active) in
  quiescent s'
  /\ last (trace s') = Some (SendResponse (Failure "No active MCP relay connection"))
  /\ _pendingTabSelection s' = _pendingTabSelection one_active
  /\ timers s' = timers one_active
  /\ (forall t, JsMap.get t (_activeConnections s')
                = if Z.eqb t 7 then None else JsMap.get t (_activeConnections one_active))
  /\ (forall existing,
        JsMap.get 7 (_activeConnections one_active) = Some existing ->
        is_closed existing s'
        /\ In (LinkClose existing "New connection requested for this tab") (trace s')
        /\ forall l, l <> existing -> links s' !! l = links one_active !! l)
  /\ (JsMap.get 7 (_activeConnections one_active) = None ->
      _activeConnections s' = _activeConnections one_active
      /\ links s' = links one_active)
  /\ _lastConnectedTabId s'
     = match _lastConnectedTabId one_active with
       | Some t =>
           if Z.eqb t 7 then last (JsMap.keys (_activeConnections s')) else Some t
       | None => None
       end
  /\ (exists calls,
        trace s' = trace one_active ++ calls /\ In (SetBadgeText 7 "") calls).
Proof.
  apply (bind_without_pending one_active (from_tab 1) (Some 7) None relay_url).
  - apply reachable_settle, reachable_run, reachable_initial.
  - reflexivity.
  - reflexivity.
Defined.

(** ** Timers of entries that leave the pending map *)

(** C6, as stated, fails.  Tab 1 is pending with timer 0 armed.  After
    [connectToTab] has promoted its link to tab 7, and likewise after
    tab 1 has closed, the entry is gone from the pending map and timer
    0 is still armed: neither path calls [clearTimeout]. *)
Lemma timer_armed_after_removal :
  reachable pending_armed /\ quiescent pending_armed
  /\ JsMap.get 1 (_pendingTabSelection pending_armed)
     = Some {| connection := 0; timerId := Some 0%nat |}
  /\ timer_is_armed 0 pending_armed
  /\ (let promoted := settle 3 (handle (bind 1 7) pending_armed) in
      JsMap.get 1 (_pendingTabSelection promoted) = None
      /\ JsMap.get 7 (_activeConnections promoted) = Some 0%nat
      /\ timer_is_armed 0 promoted
      /\ ~ In (ClearTimeout 0) (trace promoted))
  /\ (let closed_tab := handle (TabRemoved 1) pending_armed in
      JsMap.get 1 (_pendingTabSelection closed_tab) = None
      /\ timer_is_armed 0 closed_tab
      /\ ~ In (ClearTimeout 0) (trace closed_tab)).
Proof.
  split; [|split; [reflexivity|split; [reflexivity|split; [|split]]]].
  - apply reachable_run, reachable_run, reachable_initial.
  - eexists. split; reflexivity.
  - cbv zeta. split; [reflexivity|]. split; [reflexivity|]. split.
    + eexists. split; reflexivity.
    + vm_compute. intuition discriminate.
  - cbv zeta. split; [reflexivity|]. split.
    + eexists. split; reflexivity.
    + vm_compute. intuition discriminate.
Qed.

(** C6, amended.  Let a pending entry hold the id of an armed timer of
    its selector tab, in a reachable state with no handler suspended.
    When [connectToTab] promotes the entry to an active connection, and
    when the selector tab closes, the entry leaves the pending map (its
    link active on the target tab, respectively closed) while the host
    timer is not cleared: the timer table is unchanged and the timer
    still armed.  If the timer fires in the state so reached it makes
    no call and leaves maps, links and [_lastConnectedTabId] alone. *)
Theorem timer_outlives_removed_entry
    (s : state) (sender : MessageSender) (tabId windowId : option Z) (url : string)
    (p : PendingSelection) (t : timer_id) (tm : Timer) :
  reachable s -> quiescent s ->
  JsMap.get (sender_tabId sender) (_pendingTabSelection s) = Some p ->
  timerId p = Some t ->
  timers s !! t = Some tm ->
  armed tm = true ->
  timer_tabId tm = sender_tabId sender ->
  let promoted :=
    settle 3 (handle (Message (connectToTab tabId windowId url) sender) s) in
  let closed_tab := handle (TabRemoved (sender_tabId sender)) s in
  (quiescent promoted
   /\ JsMap.get (sender_tabId sender) (_pendingTabSelection promoted) = None
   /\ JsMap.get (js_or tabId (sender_tabId sender)) (_activeConnections promoted)
      = Some (connection p)
   /\ timers promoted = timers s
   /\ timer_is_armed t promoted
   /\ fires_without_effect t promoted)
  /\ (JsMap.get (sender_tabId sender) (_pendingTabSelection closed_tab) = None
      /\ is_closed (connection p) closed_tab
      /\ timers closed_tab = timers s
      /\ timer_is_armed t closed_tab
      /\ fires_without_effect t closed_tab).
Proof.
  intros Hr Hq Hpend Hid Ht Harmed Htab promoted closed_tab.
  subst promoted closed_tab.
  pose proof (reachable_consistent s Hr) as Hcons. clear Hr.
  destruct (pending_link_open s _ p Hcons Hpend) as (cp & Hcp & Hpopen & Hph).
  split.
  - cbn [handle _onMessage].
    generalize (js_or tabId (sender_tabId sender)). intros target.
    generalize (js_or windowId (sender_windowId sender)). intros window.
    unfold _connectTab.
    destruct (JsMap.get target (_activeConnections s)) as [existing|] eqn:Hact.
    + destruct (active_link_open s target existing Hcons Hact) as (c & Hc & Hopen & Hh).
      clear Hcons. rewrite (close_open_link _ _ _ c Hc Hopen), Hh.
      destruct s as [act lst pend lks tms tks tr].
      unfold quiescent in Hq. simpl in Hq, Hpend, Hact, Hc, Ht. subst tks.
      norm. erewrite settle_step by reflexivity. norm.
      erewrite settle_step by reflexivity. norm.
      unfold _connectTab_bind. cbn [_pendingTabSelection]. rewrite Hpend. norm.
      erewrite settle_step by reflexivity. norm.
      rewrite settle_done by reflexivity.
      unfold quiescent, timer_is_armed. norm.
      split; [reflexivity|]. split; [apply JsMapFacts.get_delete|].
      split; [apply JsMapFacts.get_set|]. split; [reflexivity|].
      split; [exists tm; split; assumption|].
      apply (fires_without_effect_no_entry _ t tm); [exact Ht|].
      rewrite Htab. apply JsMapFacts.get_delete.
    + clear Hcons. unfold _connectTab_bind. rewrite Hpend.
      destruct s as [act lst pend lks tms tks tr].
      unfold quiescent in Hq. simpl in Hq, Hpend, Hact, Ht. subst tks.
      norm. erewrite settle_step by reflexivity. norm.
      rewrite settle_done by reflexivity.
      unfold quiescent, timer_is_armed. norm.
      split; [reflexivity|]. split; [apply JsMapFacts.get_delete|].
      split; [apply JsMapFacts.get_set|]. split; [reflexivity|].
      split; [exists tm; split; assumption|].
      apply (fires_without_effect_no_entry _ t tm); [exact Ht|].
      rewrite Htab. apply JsMapFacts.get_delete.
  - clear Hcons. cbn [handle]. unfold _onTabRemoved. rewrite Hpend.
    rewrite (close_open_link (connection p) _
               (with_pending (JsMap.delete (sender_tabId sender)) s) cp Hcp Hpopen), Hph.
    destruct s as [act lst pend lks tms tks tr].
    simpl in Hpend, Hcp, Ht.
    unfold timer_is_armed, is_closed. norm.
    split; [apply JsMapFacts.get_delete|].
    split.
    { exists (set_closed cp). split; [|reflexivity].
      apply list_lookup_insert_eq. exact (lookup_lt_Some _ _ _ Hcp). }
    split; [reflexivity|].
    split; [exists tm; split; assumption|].
    apply (fires_without_effect_no_entry _ t tm); [exact Ht|].
    rewrite Htab. apply JsMapFacts.get_delete.
Qed.

Lemma timer_outlives_removed_entry_witness :
  let promoted := settle 3 (handle (bind 1 7) pending_armed) in
  let closed_tab := handle (TabRemoved 1) pending_armed in
  (quiescent promoted
   /\ JsMap.get 1 (_pendingTabSelection promoted) = None
   /\ JsMap.get 7 (_activeConnections promoted) = Some 0%nat
   /\ timers promoted = timers pending_armed
   /\ timer_is_armed 0 promoted
   /\ fires_without_effect 0 promoted)
  /\ (JsMap.get 1 (_pendingTabSelection closed_tab) = None
      /\ is_closed 0 closed_tab
      /\ timers closed_tab = timers pending_armed
      /\ timer_is_armed 0 closed_tab
      /\ fires_without_effect 0 closed_tab).
Proof.
  apply (timer_outlives_removed_entry pending_armed (from_tab 1) (Some 7) None relay_url
           {| connection := 0; timerId := Some 0%nat |} 0%nat
           {| timer_tabId := 1; timer_connection := 0; armed := true |}).
  - apply reachable_run, reachable_run, reachable_initial.
  - reflexivity.
  - reflexivity.
  - reflexivity.
  - reflexivity.
  - reflexivity.
  - reflexivity.
Defined.

(** The timer left armed by a promotion knows its entry by the tab id
    alone.  Tab 1 is pending with timer 0 armed, its link 0 is
    promoted to tab 7, then tab 1 completes a new handshake (link 1).
    When timer 0 fires it finds an entry for tab 1: it deletes the new
    entry and closes the link it was armed with, which is the active
    connection of tab 7 by now. *)
Remark stale_timer_after_new_handshake :
  let s := run (handshake 1) (settle 3 (handle (bind 1 7) pending_armed)) in
  let s' := handle (TimerFired 0) s in
  timer_is_armed 0 s
  /\ JsMap.get 1 (_pendingTabSelection s) = Some {| connection := 1; timerId := None |}
  /\ JsMap.get 7 (_activeConnections s) = Some 0%nat
  /\ JsMap.get 1 (_pendingTabSelection s') = None
  /\ JsMap.get 7 (_activeConnections s') = None
  /\ is_closed 0 s'
  /\ ~ is_closed 1 s'.
Proof.
  cbv zeta. split; [eexists; split; reflexivity|].
  repeat split; try reflexivity.
  - eexists. split; reflexivity.
  - intros (c & Hc & Hclosed). vm_compute in Hc. injection Hc as <-. discriminate.
Qed.

(** C10 (the code differs).  An armed timer fires after the pending
    entry of its selector tab was removed, and the callback does act.
    Tab 1 is pending on link 0 with timer 0 armed; [connectToTab]
    promotes the entry to tab 7, which removes it and leaves the timer
    armed; tab 1 then completes a new handshake and is pending on
    link 1.  When timer 0 fires, [delete(tabId)] of line 219 finds
    the new entry, so [existed] is true: the callback closes the link
    it captured, link 0, which is the active connection of tab 7 by
    now, and sends [connectionTimeout] to tab 1.  Tab 7 loses its
    connection, the new entry of tab 1 is deleted, and link 1 stays
    open with no map referring to it. *)
Theorem stale_timer_closes_promoted_link :
  let promoted := settle 3 (handle (bind 1 7) pending_armed) in
  let s := run (handshake 1) promoted in
  let s' := handle (TimerFired 0) s in
  reachable s
  /\ JsMap.get 1 (_pendingTabSelection pending_armed)
     = Some {| connection := 0; timerId := Some 0%nat |}
  /\ timers pending_armed !! 0%nat
     = Some {| timer_tabId := 1; timer_connection := 0; armed := true |}
  /\ JsMap.get 1 (_pendingTabSelection promoted) = None
  /\ JsMap.get 7 (_activeConnections promoted) = Some 0%nat
  /\ timer_is_armed 0 promoted
  /\ JsMap.get 1 (_pendingTabSelection s) = Some {| connection := 1; timerId := None |}
  /\ JsMap.get 7 (_activeConnections s) = Some 0%nat
  /\ timer_is_armed 0 s
  /\ ~ is_closed 0 s
  /\ ~ In (TabsSendMessage 1 "connectionTimeout") (trace s)
  /\ (exists calls,
        trace s' = trace s ++ calls
        /\ In (LinkClose 0 "Tab has been inactive for 5 seconds") calls
        /\ In (TabsSendMessage 1 "connectionTimeout") calls)
  /\ is_closed 0 s'
  /\ JsMap.get 7 (_activeConnections s') = None
  /\ JsMap.get 1 (_pendingTabSelection s') = None
  /\ ~ is_closed 1 s'
  /\ ~ in_pending 1 s' /\ ~ in_active 1 s'.
Proof.
  cbv zeta.
  split.
  { apply reachable_run, reachable_settle, reachable_handle.
    apply reachable_run, reachable_run, reachable_initial. }
  split; [reflexivity|]. split; [reflexivity|]. split; [reflexivity|].
  split; [reflexivity|]. split; [eexists; split; reflexivity|].
  split; [reflexivity|]. split; [reflexivity|].
  split; [eexists; split; reflexivity|].
  split.
  { intros (c & Hc & Hclosed). vm_compute in Hc. injection Hc as <-. discriminate. }
  split.
  { vm_compute. intros H. repeat (destruct H as [H|H]; [discriminate H|]). exact H. }
  split.
  { eexists. split; [vm_compute; reflexivity|]. simpl. tauto. }
  split; [eexists; split; reflexivity|].
  split; [reflexivity|]. split; [reflexivity|].
  split.
  { intros (c & Hc & Hclosed). vm_compute in Hc. injection Hc as <-. discriminate. }
  split.
  - intros (k & p & Hin & Hp). vm_compute in Hin.
    apply elem_of_cons in Hin as [Heq|Hin]; [discriminate|].
    apply elem_of_cons in Hin as [Heq|Hin]; [discriminate|]. inversion Hin.
  - intros (k & Hin). vm_compute in Hin.
    apply elem_of_cons in Hin as [Heq|Hin]; [discriminate|]. inversion Hin.
Qed.

(** * Further properties of the handlers *)

(** ** Disconnecting and closing tabs *)



(** X2. A tab that holds both a pending and an active entry closes:
    [_onTabRemoved] closes the pending link, removes the pending entry
    and returns (line 196).  The active connection of the closed tab
    is not closed and stays in the active map. *)
Theorem tab_removed_pending_shadows_active
    (s : state) (tabId : Z) (p : PendingSelection) (conn : link) :
  reachable s ->
  JsMap.get tabId (_pendingTabSelection s) = Some p ->
  JsMap.get tabId (_activeConnections s) = Some conn ->
  let s' := handle (TabRemoved tabId) s in
  JsMap.get tabId (_pendingTabSelection s') = None
  /\ is_closed (connection p) s'
  /\ trace s' = trace s ++ [LinkClose (connection p) "Browser tab closed"]
  /\ _activeConnections s' = _activeConnections s
  /\ ~ is_closed conn s'
  /\ _lastConnectedTabId s' = _lastConnectedTabId s
  /\ tasks s' = tasks s.
Proof.
  intros Hr Hpend Hact s'. subst s'.
  pose proof (reachable_consistent s Hr) as Hcons.
  destruct (pending_link_open s tabId p Hcons Hpend) as (cp & Hcp & Hpopen & Hph).
  destruct (active_link_open s tabId conn Hcons Hact) as (c & Hc & Hopen & Hh).
  clear Hr Hcons. cbn [handle]. unfold _onTabRemoved. rewrite Hpend.
  rewrite (close_open_link (connection p) _
             (with_pending (JsMap.delete tabId) s) cp Hcp Hpopen), Hph.
  destruct s as [act lst pend lks tms tks tr].
  simpl in Hpend, Hact, Hcp, Hc. unfold is_closed. norm.
  split; [apply JsMapFacts.get_delete|].
  split.
  { exists (set_closed cp). split; [|reflexivity].
    apply list_lookup_insert_eq. exact (lookup_lt_Some _ _ _ Hcp). }
  split; [reflexivity|]. split; [reflexivity|].
  split; [|split; reflexivity].
  intros (c' & Hc' & Hclosed).
  assert (Hne : connection p <> conn) by (intros Heq; rewrite Heq in Hcp; congruence).
  rewrite list_lookup_insert_ne in Hc' by exact Hne. congruence.
Qed.

Lemma tab_removed_pending_shadows_active_witness :
  let s' := handle (TabRemoved 1) pending_and_active in
  JsMap.get 1 (_activeConnections pending_and_active) = Some 0%nat
  /\ JsMap.get 1 (_pendingTabSelection s') = None
  /\ is_closed 1 s'
  /\ _activeConnections s' = _activeConnections pending_and_active
  /\ ~ is_closed 0 s'.
Proof.
  assert (Hr : reachable pending_and_active).
  { apply reachable_run, reachable_settle, reachable_run, reachable_initial. }
  destruct (tab_removed_pending_shadows_active pending_and_active 1
              {| connection := 1; timerId := None |} 0%nat Hr eq_refl eq_refl)
    as (Hgone & Hclosed & _ & Hact & Hopen & _).
  split; [reflexivity|]. split; [exact Hgone|]. split; [exact Hclosed|].
  split; [exact Hact|exact Hopen].
Defined.

(** ** The inactivity timeout *)

(** X3. The timer of a pending selection fires while its entry is
    still pending: the entry is removed, its link is closed with
    reason "Tab has been inactive for 5 seconds", the selector tab is
    sent [connectionTimeout], and the timer is spent.  The active map,
    [_lastConnectedTabId], the other links and the suspended handlers
    are untouched. *)
Theorem pending_timeout_fires
    (s : state) (t : timer_id) (tm : Timer) (p : PendingSelection) :
  reachable s ->
  timers s !! t = Some tm ->
  armed tm = true ->
  JsMap.get (timer_tabId tm) (_pendingTabSelection s) = Some p ->
  connection p = timer_connection tm ->
  let s' := handle (TimerFired t) s in
  JsMap.get (timer_tabId tm) (_pendingTabSelection s') = None
  /\ is_closed (timer_connection tm) s'
  /\ trace s' = trace s
       ++ [LinkClose (timer_connection tm) "Tab has been inactive for 5 seconds";
           TabsSendMessage (timer_tabId tm) "connectionTimeout"]
  /\ ~ timer_is_armed t s'
  /\ _activeConnections s' = _activeConnections s
  /\ _lastConnectedTabId s' = _lastConnectedTabId s
  /\ (forall l, l <> timer_connection tm -> links s' !! l = links s !! l)
  /\ tasks s' = tasks s.
Proof.
  intros Hr Ht Harmed Hpend Hconn s'. subst s'.
  destruct (pending_link_open s _ p (reachable_consistent s Hr) Hpend)
    as (cp & Hcp & Hpopen & Hph).
  clear Hr. rewrite Hconn in Hcp.
  cbn [handle]. unfold fire_timer. rewrite Ht, Harmed.
  unfold timer_callback, JsMap.has. cbn [_pendingTabSelection with_timers].
  rewrite Hpend.
  rewrite (close_open_link (timer_connection tm) _
             (with_pending (JsMap.delete (timer_tabId tm))
                (with_timers (alter disarm t) s)) cp Hcp Hpopen), Hph.
  destruct s as [act lst pend lks tms tks tr].
  simpl in Hpend, Hcp, Ht. unfold is_closed, timer_is_armed. norm.
  split; [apply JsMapFacts.get_delete|].
  split.
  { exists (set_closed cp). split; [|reflexivity].
    apply list_lookup_insert_eq. exact (lookup_lt_Some _ _ _ Hcp). }
  split; [rewrite <- app_assoc; reflexivity|].
  split.
  { intros (tm' & Htm' & Harmed').
    rewrite list_lookup_alter_eq, Ht in Htm'. injection Htm' as <-. discriminate. }
  split; [reflexivity|]. split; [reflexivity|]. split; [|reflexivity].
  intros l Hne. apply list_lookup_insert_ne. congruence.
Qed.

Lemma pending_timeout_fires_witness :
  let s' := handle (TimerFired 0) pending_armed in
  JsMap.get 1 (_pendingTabSelection s') = None
  /\ is_closed 0 s'
  /\ trace s' = trace pending_armed
       ++ [LinkClose 0 "Tab has been inactive for 5 seconds";
           TabsSendMessage 1 "connectionTimeout"].
Proof.
  destruct (pending_timeout_fires pending_armed 0%nat
              {| timer_tabId := 1; timer_connection := 0; armed := true |}
              {| connection := 0; timerId := Some 0%nat |})
    as (Hgone & Hclosed & Htrace & _).
  - apply reachable_run, reachable_run, reachable_initial.
  - reflexivity.
  - reflexivity.
  - reflexivity.
  - reflexivity.
  - split; [exact Hgone|]. split; [exact Hclosed|exact Htrace].
Defined.

(** ** Binding a tab *)


Lemma handle_message message sender s :
  handle (Message message sender) s = _onMessage message sender s.
Proof. reflexivity. Qed.






(** ** What the maps say about their links *)
Section BoundTabs.
Import JsMapFacts.

Lemma sound_frame s s' :
  _pendingTabSelection s' = _pendingTabSelection s ->
  _activeConnections s' = _activeConnections s ->
  links s' = links s ->
  links_sound s -> links_sound s'.
Proof.
  unfold links_sound, links_consistent, links_bound. intros -> -> ->. auto.
Qed.

Lemma sound_delete_pending k s :
  links_sound s -> links_sound (with_pending (JsMap.delete k) s).
Proof.
  intros [Hc [Hp Ha]]. split; [apply consistent_delete_pending, Hc|].
  split; simpl; [|exact Ha].
  intros k' p Hin. apply elem_delete in Hin as [_ Hin]. exact (Hp k' p Hin).
Qed.

Lemma sound_delete_active k s :
  links_sound s -> links_sound (with_active (JsMap.delete k) s).
Proof.
  intros [Hc [Hp Ha]]. split; [apply consistent_delete_active, Hc|].
  split; simpl; [exact Hp|].
  intros k' l Hin. apply elem_delete in Hin as [_ Hin]. exact (Ha k' l Hin).
Qed.

Lemma sound_clear_active s :
  links_sound s -> links_sound (with_active JsMap.clear s).
Proof.
  intros [Hc [Hp Ha]]. split; [apply consistent_clear_active, Hc|].
  split; simpl; [exact Hp|].
  intros k l Hin. destruct (elem_clear _ _ Hin).
Qed.

Lemma sound_set_timerId i v s :
  links_sound s ->
  links_sound (with_pending (JsMap.update_at i (set_timerId v)) s).
Proof.
  intros [Hc [Hp Ha]].
  split; [apply consistent_update_pending; [reflexivity|exact Hc]|].
  split; simpl; [|exact Ha].
  intros k p' Hin. apply elem_update_at in Hin as (p & Hin & [->| ->]);
    exact (Hp k p Hin).
Qed.

(** Closing a link changes its closed flag only. *)
Lemma bound_after_closing l c (lks : list RelayConnection) l' c' :
  lks !! l = Some c -> lks !! l' = Some c' ->
  exists c'', <[l := set_closed c]> lks !! l' = Some c''
              /\ boundTab c'' = boundTab c'.
Proof.
  intros Hl Hl'. destruct (Nat.eq_dec l l') as [<-|Hne].
  - exists (set_closed c). split.
    + apply list_lookup_insert_eq. exact (lookup_lt_Some _ _ _ Hl).
    + rewrite Hl in Hl'. injection Hl' as <-. reflexivity.
  - exists c'. split; [|reflexivity].
    rewrite list_lookup_insert_ne by exact Hne. exact Hl'.
Qed.

Lemma sound_notify_closed l s :
  links_sound s -> links_sound (notify_closed l s).
Proof.
  intros [Hc Hb]. split; [apply consistent_notify_closed, Hc|].
  destruct Hb as [Hp Ha]. unfold notify_closed.
  destruct (links s !! l) as [c|] eqn:Hl; [|split; assumption].
  destruct (closed c); [split; assumption|].
  assert (Hp' : forall k p, Some (k, p) ∈ _pendingTabSelection s ->
            exists c', <[l := set_closed c]> (links s) !! connection p = Some c'
                       /\ boundTab c' = None).
  { intros k p Hin. destruct (Hp k p Hin) as (c' & Hc' & Hb').
    destruct (bound_after_closing l c _ _ c' Hl Hc') as (c'' & H1 & H2).
    exists c''. split; [exact H1|congruence]. }
  assert (Ha' : forall k l', Some (k, l') ∈ _activeConnections s ->
            exists c', <[l := set_closed c]> (links s) !! l' = Some c'
                       /\ boundTab c' = Some k).
  { intros k l' Hin. destruct (Ha k l' Hin) as (c' & Hc' & Hb').
    destruct (bound_after_closing l c _ _ c' Hl Hc') as (c'' & H1 & H2).
    exists c''. split; [exact H1|congruence]. }
  destruct (onclose c) as [|k0|k0]; simpl.
  - split; assumption.
  - split; simpl; [|exact Ha'].
    intros k p Hin. apply elem_delete in Hin as [_ Hin]. exact (Hp' k p Hin).
  - split; simpl; [exact Hp'|].
    intros k l' Hin. apply elem_delete in Hin as [_ Hin]. exact (Ha' k l' Hin).
Qed.

Lemma sound_connectToRelay_resumed selectorTabId r s :
  links_sound s -> links_sound (_connectToRelay_resumed selectorTabId r s).
Proof.
  intros [Hc Hb]. split; [apply consistent_connectToRelay_resumed, Hc|].
  destruct Hb as [Hp Ha]. unfold _connectToRelay_resumed.
  destruct r as [tabs|message]; [|split; assumption].
  split; simpl.
  - intros k p Hin. apply elem_set in Hin as [[-> ->]|[Hne Hin]]; simpl.
    + eexists. rewrite list_lookup_middle by reflexivity. auto.
    + destruct (Hp k p Hin) as (c & Hl & Hrest).
      exists c. split; [apply lookup_app_l_Some, Hl|exact Hrest].
  - intros k l Hin. destruct (Ha k l Hin) as (c & Hl & Hrest).
    exists c. split; [apply lookup_app_l_Some, Hl|exact Hrest].
Qed.

Lemma sound_connectTab_bind selectorTabId tabId windowId s :
  links_sound s -> links_sound (_connectTab_bind selectorTabId tabId windowId s).
Proof.
  intros [Hc Hb]. split; [apply consistent_connectTab_bind, Hc|].
  unfold _connectTab_bind.
  destruct (JsMap.get selectorTabId (_pendingTabSelection s)) as [pending|] eqn:Hget;
    [|exact Hb].
  destruct Hc as [Hcp Hca]. destruct Hb as [Hp Ha].
  apply get_elem in Hget.
  destruct (Hcp _ _ Hget) as (c & Hl & Hopen & Hh).
  split; simpl.
  - intros k p Hin. apply elem_delete in Hin as [Hne Hin].
    destruct (Hp k p Hin) as (c' & Hl' & Hb').
    destruct (Nat.eq_dec (connection pending) (connection p)) as [Heq|Hneq].
    + destruct (Hcp k p Hin) as (c'' & Hl'' & _ & Hh'').
      rewrite <- Heq, Hl in Hl''. injection Hl'' as <-. congruence.
    + exists c'. rewrite !list_lookup_alter_ne by exact Hneq. auto.
  - intros k l Hin. apply elem_set in Hin as [[-> ->]|[Hne Hin]].
    + rewrite !list_lookup_alter_eq, Hl. simpl. eexists. split; reflexivity.
    + destruct (Ha k l Hin) as (c' & Hl' & Hb').
      destruct (Nat.eq_dec (connection pending) l) as [Heq|Hneq].
      * destruct (Hca k l Hin) as (c'' & Hl'' & _ & Hh'').
        rewrite <- Heq, Hl in Hl''. injection Hl'' as <-. congruence.
      * exists c'. rewrite !list_lookup_alter_ne by exact Hneq. auto.
Qed.

Lemma reachable_sound s : reachable s -> links_sound s.
Proof.
  apply (preserved_reachable links_sound sound_frame
           sound_delete_pending sound_delete_active sound_clear_active
           sound_set_timerId sound_notify_closed
           sound_connectToRelay_resumed sound_connectTab_bind).
  repeat split; simpl; intros k x Hin; inversion Hin.
Qed.

End BoundTabs.

(** X6. In every reachable state, whatever the order in which
    suspended handlers resumed: the link of a pending entry is open,
    bound to no tab, and its [onclose] deletes the pending entry of
    that selector tab (lines 107-111); the link of an active entry is
    open, bound by [setTabId] to the very tab it is stored under, and
    its [onclose] removes the active entry of that tab (lines
    142-150). *)
Theorem entries_and_their_links (s : state) :
  reachable s ->
  (forall k p, JsMap.get k (_pendingTabSelection s) = Some p ->
     exists c, links s !! connection p = Some c
               /\ closed c = false /\ boundTab c = None
               /\ onclose c = OnClosePending k)
  /\ (forall k l, JsMap.get k (_activeConnections s) = Some l ->
        links s !! l
        = Some {| closed := false; boundTab := Some k; onclose := OnCloseActive k |}).
Proof.
  intros Hr. destruct (reachable_sound s Hr) as [[Hcp Hca] [Hbp Hba]]. split.
  - intros k p Hget. apply JsMapFacts.get_elem in Hget.
    destruct (Hcp k p Hget) as (c & Hl & Hopen & Hh).
    destruct (Hbp k p Hget) as (c' & Hl' & Hb).
    exists c. rewrite Hl in Hl'. injection Hl' as <-. auto.
  - intros k l Hget. apply JsMapFacts.get_elem in Hget.
    destruct (Hca k l Hget) as (c & Hl & Hopen & Hh).
    destruct (Hba k l Hget) as (c' & Hl' & Hb).
    rewrite Hl in Hl'. injection Hl' as <-.
    rewrite Hl. destruct c as [cl bt oc]. simpl in *. subst. reflexivity.
Qed.

Lemma entries_and_their_links_witness :
  links two_active !! 1%nat
  = Some {| closed := false; boundTab := Some 7; onclose := OnCloseActive 7 |}.
Proof.
  assert (Hr : reachable two_active).
  { apply reachable_settle, reachable_run, reachable_settle, reachable_run.
    apply reachable_initial. }
  destruct (entries_and_their_links two_active Hr) as [_ Hactive].
  apply (Hactive 7). reflexivity.
Defined.

(** ** Disconnecting every tab *)

Lemma next_from_drop {V} (m : JsMap.t V) : forall here i,
  JsMap.next_from here i m = JsMap.next_from (here + i) 0 (drop i m).
Proof.
  induction m as [|slot m IH]; intros here i.
  - destruct i; reflexivity.
  - destruct i as [|i].
    + rewrite Nat.add_0_r. reflexivity.
    + simpl. rewrite IH. f_equal. lia.
Qed.

Lemma drop_tail {A} (l : list A) : forall i x rest,
  drop i l = x :: rest -> drop (S i) l = rest.
Proof.
  induction l as [|y l IH]; intros [|i] x rest H; simpl in *; try discriminate.
  - injection H as _ ->. destruct rest; reflexivity.
  - exact (IH i x rest H).
Qed.

Lemma drop_delete {V} k i (m : JsMap.t V) :
  drop i (JsMap.delete k m) = JsMap.delete k (drop i m).
Proof.
  unfold JsMap.delete. apply skipn_map.
Qed.

Lemma next_nil {V} i (m : JsMap.t V) : drop i m = [] -> JsMap.next i m = None.
Proof.
  intros H. unfold JsMap.next. rewrite next_from_drop, H. reflexivity.
Qed.

Lemma next_live {V} i (m : JsMap.t V) kv rest :
  drop i m = Some kv :: rest -> JsMap.next i m = Some (i, kv).
Proof.
  intros H. unfold JsMap.next. rewrite next_from_drop, H. reflexivity.
Qed.

Lemma next_dead {V} i (m : JsMap.t V) rest :
  drop i m = None :: rest -> JsMap.next i m = JsMap.next (S i) m.
Proof.
  intros H. unfold JsMap.next.
  rewrite (next_from_drop m 0 i), (next_from_drop m 0 (S i)), H.
  rewrite (drop_tail _ _ _ _ H). reflexivity.
Qed.

Lemma settle_more n : forall s k,
  quiescent (settle n s) -> settle (n + k) s = settle n s.
Proof.
  induction n as [|n IH]; intros s k Hq.
  - apply settle_done. exact Hq.
  - change (S n + k)%nat with (S (n + k)). cbn [settle] in *.
    destruct (tasks s); [reflexivity|]. apply IH. exact Hq.
Qed.

Lemma closed_stays l c l' (lks : list RelayConnection) :
  lks !! l = Some c ->
  (exists c', lks !! l' = Some c' /\ closed c' = true) ->
  exists c', <[l := set_closed c]> lks !! l' = Some c' /\ closed c' = true.
Proof.
  intros Hl (c' & Hl' & Hclosed). destruct (Nat.eq_dec l l') as [<-|Hne].
  - exists (set_closed c). split; [|reflexivity].
    apply list_lookup_insert_eq. exact (lookup_lt_Some _ _ _ Hl).
  - exists c'. rewrite list_lookup_insert_ne by exact Hne. auto.
Qed.

(** The [for-of] of [_disconnect] from slot [i] on, [rest] being the
    slots it has not visited yet. *)
Lemma disconnect_all_from (rest : JsMap.t link) : forall i s,
  links_consistent s -> quiescent s ->
  drop i (_activeConnections s) = rest ->
  NoDup (JsMap.keys rest) ->
  all_disconnected s (settle (2 * length rest) (_disconnect_all i s)) rest.
Proof.
  induction rest as [|[[k l]|] rest IH]; intros i s Hcons Hq Hdrop Hnodup.
  - unfold _disconnect_all. rewrite (next_nil _ _ Hdrop).
    cbn [length Nat.mul settle].
    destruct s as [act lst pend lks tms tks tr].
    unfold quiescent in Hq. simpl in Hq. subst tks.
    unfold all_disconnected, quiescent. norm.
    split; [reflexivity|]. split; [apply keys_clear|]. split; [reflexivity|].
    split; [apply last_snoc|]. split; [reflexivity|]. split; [reflexivity|].
    split; [auto|]. intros k l Hin. inversion Hin.
  - assert (Hin : Some (k, l) ∈ _activeConnections s).
    { rewrite <- (take_drop i (_activeConnections s)), Hdrop.
      apply elem_of_app. right. apply list_elem_of_here. }
    destruct Hcons as [Hcp Hca].
    destruct (Hca k l Hin) as (c & Hc & Hopen & Hh).
    assert (Hcons' : links_consistent (notify_closed l s))
      by (apply consistent_notify_closed; split; assumption).
    rewrite (notify_open_link _ _ c Hc Hopen), Hh in Hcons'.
    change (JsMap.keys (Some (k, l) :: rest)) with (k :: JsMap.keys rest) in Hnodup.
    apply NoDup_cons in Hnodup as [Hfresh Hnodup].
    assert (Habsent : JsMap.get k rest = None).
    { destruct (JsMap.get k rest) eqn:E; [|reflexivity].
      exfalso. apply Hfresh. apply list_elem_of_In, JsMapFacts.keys_has.
      unfold JsMap.has. rewrite E. reflexivity. }
    pose proof (drop_tail _ _ _ _ Hdrop) as Hdrop'.
    unfold _disconnect_all at 1. rewrite (next_live _ _ _ _ Hdrop).
    rewrite (close_open_link _ _ _ c Hc Hopen), Hh.
    replace (2 * length (Some (k, l) :: rest))%nat
      with (S (S (2 * length rest))) by (simpl; lia).
    destruct s as [act lst pend lks tms tks tr].
    unfold quiescent in Hq. simpl in Hq, Hc, Hdrop', Hin. subst tks.
    norm. erewrite settle_step by reflexivity. norm.
    erewrite settle_step by reflexivity. norm.
    match goal with
    | |- all_disconnected _ (settle _ (_disconnect_all _ ?s2)) _ =>
        assert (IH2 : all_disconnected s2
                  (settle (2 * length rest) (_disconnect_all (S i) s2)) rest)
    end.
    { apply IH.
      - eapply consistent_frame; [..|exact Hcons']; reflexivity.
      - reflexivity.
      - cbn [_activeConnections]. rewrite drop_delete, Hdrop'.
        exact (JsMapFacts.delete_absent k rest Habsent).
      - exact Hnodup. }
    destruct IH2 as (H1 & H2 & H3 & H4 & H5 & H6 & H7 & H8).
    unfold all_disconnected.
    split; [exact H1|]. split; [exact H2|]. split; [exact H3|].
    split; [exact H4|]. split; [exact H5|]. split; [exact H6|].
    split.
    + intros l' Hclosed. apply H7. apply (closed_stays _ _ _ _ Hc Hclosed).
    + intros k' l' Hin'. apply elem_of_cons in Hin' as [[= -> ->]|Hin'].
      * apply H7. exists (set_closed c). split; [|reflexivity].
        apply list_lookup_insert_eq. exact (lookup_lt_Some _ _ _ Hc).
      * exact (H8 k' l' Hin').
  - unfold _disconnect_all at 1. rewrite (next_dead _ _ _ Hdrop).
    change (2 * length (None :: rest))%nat with (2 * S (length rest))%nat.
    replace (2 * S (length rest))%nat with (2 * length rest + 2)%nat by lia.
    assert (IH2 : all_disconnected s
              (settle (2 * length rest) (_disconnect_all (S i) s)) rest).
    { apply IH; [exact Hcons|exact Hq|exact (drop_tail _ _ _ _ Hdrop)|exact Hnodup]. }
    fold (_disconnect_all (S i) s).
    rewrite settle_more by exact (proj1 IH2).
    destruct IH2 as (H1 & H2 & H3 & H4 & H5 & H6 & H7 & H8).
    unfold all_disconnected. repeat split; try assumption.
    intros k l Hin. apply elem_of_cons in Hin as [Heq|Hin]; [discriminate|].
    exact (H8 k l Hin).
Qed.

Lemma disconnect_all_settles (s : state) (sender : MessageSender) (fuel : nat) :
  reachable s -> quiescent s ->
  (2 * length (_activeConnections s) <= fuel)%nat ->
  all_disconnected s
    (settle fuel (handle (Message (disconnect None) sender) s))
    (_activeConnections s).
Proof.
  intros Hr Hq Hfuel.
  rewrite handle_message. cbn [_onMessage _disconnect].
  pose proof (disconnect_all_from (_activeConnections s) 0 s
                (reachable_consistent s Hr) Hq eq_refl
                (proj2 (reachable_keys_unique s Hr))) as Hall.
  replace fuel
    with (2 * length (_activeConnections s)
          + (fuel - 2 * length (_activeConnections s)))%nat by lia.
  rewrite settle_more by exact (proj1 Hall).
  exact Hall.
Qed.

(** X7. [disconnect()] without a tab id, in a reachable state with no
    handler suspended, given time for twice as many resumptions as the
    active map has slots (or more): the loop ends, every connection
    that was active is closed, the active map is empty,
    [_lastConnectedTabId] is [null] and the answer is
    [{ success: true }].  Pending selections and timers are
    untouched. *)
Theorem disconnect_all_closes_everything
    (s : state) (sender : MessageSender) (fuel : nat) :
  reachable s -> quiescent s ->
  (2 * length (_activeConnections s) <= fuel)%nat ->
  let s' := settle fuel (handle (Message (disconnect None) sender) s) in
  quiescent s'
  /\ JsMap.keys (_activeConnections s') = []
  /\ _lastConnectedTabId s' = None
  /\ last (trace s') = Some (SendResponse Success)
  /\ _pendingTabSelection s' = _pendingTabSelection s
  /\ timers s' = timers s
  /\ (forall k l, JsMap.get k (_activeConnections s) = Some l -> is_closed l s').
Proof.
  intros Hr Hq Hfuel s'. subst s'.
  destruct (disconnect_all_settles s sender fuel Hr Hq Hfuel)
    as (H1 & H2 & H3 & H4 & H5 & H6 & _ & H8).
  repeat split; try assumption.
  intros k l Hget. apply (H8 k l), JsMapFacts.get_elem, Hget.
Qed.

Lemma disconnect_all_closes_everything_witness :
  let s' := settle 4 (handle (Message (disconnect None) (from_tab 1)) two_active) in
  quiescent s'
  /\ JsMap.keys (_activeConnections two_active) = [3; 7]
  /\ JsMap.keys (_activeConnections s') = []
  /\ is_closed 0 s' /\ is_closed 1 s'.
Proof.
  assert (Hr : reachable two_active).
  { apply reachable_settle, reachable_run, reachable_settle, reachable_run.
    apply reachable_initial. }
  destruct (disconnect_all_closes_everything two_active (from_tab 1) 4 Hr eq_refl)
    as (Hq & Hkeys & _ & _ & _ & _ & Hclosed).
  - simpl. lia.
  - split; [exact Hq|]. split; [reflexivity|]. split; [exact Hkeys|].
    split; [apply (Hclosed 3)|apply (Hclosed 7)]; reflexivity.
Defined.

(** ** The tabs offered for selection *)

Lemma filter_sublist {A} (f : A -> bool) (l : list A) :
  sublist (List.filter f l) l.
Proof.
  induction l as [|x l IH]; simpl.
  - apply sublist_nil.
  - destruct (f x); [apply sublist_skip|apply sublist_cons]; exact IH.
Qed.

Lemma selectable_spec (tab : Tab) :
  selectable tab = true
  <-> exists url, tab_url tab = Some url
        /\ url <> ""%string
        /\ String.prefix "chrome:" url = false
        /\ String.prefix "edge:" url = false
        /\ String.prefix "devtools:" url = false.
Proof.
  unfold selectable, internal_schemes. destruct (tab_url tab) as [url|].
  - cbn [existsb]. rewrite Bool.orb_false_r.
    destruct (String.eqb_spec url ""%string) as [->|Hne]; cbn [negb andb].
    + split; [discriminate|]. intros (url & [= <-] & Hne & _). congruence.
    + destruct (String.prefix "chrome:" url) eqn:E1,
        (String.prefix "edge:" url) eqn:E2,
        (String.prefix "devtools:" url) eqn:E3; cbn [negb orb andb].
      all: split; [intros H; try discriminate H; exists url; auto|].
      all: intros (u & [= <-] & _ & H1 & H2 & H3); congruence.
  - split; [discriminate|]. intros (url & H & _). discriminate.
Qed.

Lemma delete_last_task {A} (q : list A) (t : A) : delete (length q) (q ++ [t]) = q.
Proof.
  induction q as [|x q IH]; simpl; [reflexivity|]. f_equal. exact IH.
Qed.

(** X8. [getTabs], whatever else is suspended: the query is made and,
    when it yields [tabs], the page is answered with the sender's tab
    id and those of [tabs], in their order, that have a non-empty URL
    starting with none of [chrome:], [edge:] and [devtools:]; when the
    query is rejected the page is answered with the error message.  In
    both cases maps, links, timers and [_lastConnectedTabId] are
    untouched and the other suspended handlers stay as they are. *)
Theorem getTabs_offers_selectable_tabs
    (s : state) (sender : MessageSender) (r : host_result) :
  let s' := handle (Resume (length (tasks s)) r)
              (handle (Message getTabs sender) s) in
  same_broker_state s s'
  /\ tasks s' = tasks s
  /\ timers s' = timers s
  /\ match r with
     | Fulfilled tabs =>
         exists shown,
           trace s' = trace s
             ++ [TabsQuery; SendResponse (SuccessTabs shown (sender_tabId sender))]
           /\ sublist shown tabs
           /\ (forall tab, tab ∈ shown <->
                 tab ∈ tabs
                 /\ exists url, tab_url tab = Some url
                      /\ url <> ""%string
                      /\ String.prefix "chrome:" url = false
                      /\ String.prefix "edge:" url = false
                      /\ String.prefix "devtools:" url = false)
     | Rejected message =>
         trace s' = trace s ++ [TabsQuery; SendResponse (Failure message)]
     end.
Proof.
  rewrite handle_message. cbn [_onMessage handle]. unfold _getTabs, suspend.
  cbn [with_tasks emit tasks].
  rewrite list_lookup_middle by reflexivity.
  destruct s as [act lst pend lks tms tks tr].
  cbv [with_tasks resume _getTabs_resumed emit same_broker_state
       _activeConnections _lastConnectedTabId _pendingTabSelection
       links timers tasks trace].
  rewrite delete_last_task.
  destruct r as [tabs|message].
  - repeat split. exists (List.filter selectable tabs).
    split; [rewrite <- app_assoc; reflexivity|].
    split; [apply filter_sublist|].
    intros tab. rewrite !list_elem_of_In, filter_In, selectable_spec. reflexivity.
  - repeat split. rewrite <- app_assoc. reflexivity.
Qed.

(** ** The legacy scalar between requests *)
Section LastTab.
Import JsMapFacts.

Lemma elem_delete_or {A} (l : list A) : forall i y x,
  l !! i = Some y -> x ∈ l -> x = y \/ x ∈ delete i l.
Proof.
  induction l as [|a l IH]; intros [|i] y x H Hin; simpl in *; try discriminate.
  - injection H as <-. apply elem_of_cons in Hin. exact Hin.
  - apply elem_of_cons in Hin as [->|Hin].
    + right. apply list_elem_of_here.
    + destruct (IH i y x H Hin) as [->|Hin']; [left; reflexivity|].
      right. apply list_elem_of_further, Hin'.
Qed.

Lemma keys_delete_nil {V} k (m : JsMap.t V) :
  JsMap.keys m = [] -> JsMap.keys (JsMap.delete k m) = [].
Proof.
  intros Hm. destruct (JsMap.keys (JsMap.delete k m)) as [|x l] eqn:E; [reflexivity|].
  assert (Hin : x ∈ JsMap.keys m).
  { apply (elem_keys_delete k). rewrite E. apply list_elem_of_here. }
  rewrite Hm in Hin. inversion Hin.
Qed.

Lemma has_delete_ne {V} k t (m : JsMap.t V) :
  t <> k -> JsMap.has t (JsMap.delete k m) = JsMap.has t m.
Proof.
  intros Hne. unfold JsMap.has. rewrite get_delete_ne by congruence. reflexivity.
Qed.

Lemma accounted_frame s s' :
  _lastConnectedTabId s' = _lastConnectedTabId s ->
  _activeConnections s' = _activeConnections s ->
  (forall x, x ∈ tasks s -> x ∈ tasks s') ->
  last_tab_accounted s -> last_tab_accounted s'.
Proof.
  unfold last_tab_accounted. intros -> -> Htasks.
  destruct (_lastConnectedTabId s) as [t|]; [|auto].
  intros [H|(x & Hin & Hx)]; [left; exact H|right; eauto].
Qed.

(** An active entry goes and [_removeConnectedTab] is called for its
    tab: lines 145-146, 203-204 and 254-255. *)
Lemma accounted_removal k K s :
  last_tab_accounted s ->
  last_tab_accounted (_removeConnectedTab k K (with_active (JsMap.delete k) s)).
Proof.
  unfold last_tab_accounted. simpl.
  destruct (_lastConnectedTabId s) as [t|]; [|apply keys_delete_nil].
  intros H. destruct (Z.eq_dec t k) as [->|Hne].
  - right. exists (AwaitRemoveBadge k K). split; [|reflexivity].
    apply elem_of_app. right. apply list_elem_of_here.
  - destruct H as [H|(x & Hin & Hx)].
    + left. rewrite has_delete_ne by exact Hne. exact H.
    + right. exists x. split; [|exact Hx]. apply elem_of_app. left. exact Hin.
Qed.

Lemma accounted_notify_closed l s :
  last_tab_accounted s -> last_tab_accounted (notify_closed l s).
Proof.
  intros H. unfold notify_closed.
  destruct (links s !! l) as [c|]; [|exact H].
  destruct (closed c); [exact H|].
  assert (H' : last_tab_accounted (with_links (fun h => <[l := set_closed c]> h) s))
    by exact H.
  destruct (onclose c) as [|k|k]; cbn [run_onclose].
  - exact H'.
  - exact H'.
  - apply accounted_removal, H'.
Qed.

Lemma accounted_close l reason s :
  last_tab_accounted s -> last_tab_accounted (close l reason s).
Proof.
  intros H. apply accounted_notify_closed. exact H.
Qed.

Lemma accounted_removeConnectedTab k K s :
  last_tab_accounted s -> last_tab_accounted (_removeConnectedTab k K s).
Proof.
  apply accounted_frame; try reflexivity.
  intros x Hin. simpl. apply elem_of_app. left. exact Hin.
Qed.

(** Lines 173-176 settle the account of [tabId]. *)
Lemma accounted_removeConnectedTab_resumed tabId s :
  last_tab_accounted s \/ _lastConnectedTabId s = Some tabId ->
  last_tab_accounted (_removeConnectedTab_resumed tabId s).
Proof.
  intros H. unfold _removeConnectedTab_resumed.
  destruct (_lastConnectedTabId s) as [t|] eqn:Hlast.
  - destruct (Z.eqb_spec t tabId) as [Heq|Hne].
    + unfold last_tab_accounted. simpl.
      pose proof (last_keys_valid (_activeConnections s)) as Hv.
      destruct (last (JsMap.keys (_activeConnections s))); [left|]; exact Hv.
    + destruct H as [H|H]; [exact H|congruence].
  - destruct H as [H|H]; [exact H|discriminate].
Qed.

(** Line 151 names a tab that line 150 has just stored; the catch
    block calls [_removeConnectedTab(tabId)]. *)
Lemma accounted_connectTab_bind selectorTabId tabId windowId s :
  last_tab_accounted s \/ _lastConnectedTabId s = Some tabId ->
  last_tab_accounted (_connectTab_bind selectorTabId tabId windowId s).
Proof.
  intros H. unfold _connectTab_bind.
  destruct (JsMap.get selectorTabId (_pendingTabSelection s)) as [pending|].
  - unfold last_tab_accounted. simpl. left.
    unfold JsMap.has. rewrite get_set. reflexivity.
  - destruct H as [H|H]; [apply accounted_removeConnectedTab, H|].
    unfold last_tab_accounted. simpl. rewrite H. right.
    exists (AwaitRemoveBadge tabId
              (KRespond (Failure "No active MCP relay connection"))).
    split; [|reflexivity]. apply elem_of_app. right. apply list_elem_of_here.
Qed.

Lemma accounted_connectTab selectorTabId tabId windowId s :
  last_tab_accounted s ->
  last_tab_accounted (_connectTab selectorTabId tabId windowId s).
Proof.
  intros H. unfold _connectTab.
  destruct (JsMap.get tabId (_activeConnections s)) as [existing|];
    [|apply accounted_connectTab_bind; left; exact H].
  apply (accounted_close existing "New connection requested for this tab") in H.
  revert H. generalize (close existing "New connection requested for this tab" s).
  intros s1 H. unfold last_tab_accounted in *. simpl.
  destruct (_lastConnectedTabId s1) as [t|]; [|apply keys_delete_nil, H].
  destruct (Z.eq_dec t tabId) as [->|Hne].
  - right. exists (AwaitEvictionBadge selectorTabId tabId windowId).
    split; [|reflexivity]. apply elem_of_app. right. apply list_elem_of_here.
  - destruct H as [H|(x & Hin & Hx)].
    + left. rewrite has_delete_ne by exact Hne. exact H.
    + right. exists x. split; [|exact Hx]. apply elem_of_app. left. exact Hin.
Qed.

Lemma accounted_disconnect_all i s :
  last_tab_accounted s -> last_tab_accounted (_disconnect_all i s).
Proof.
  intros H. unfold _disconnect_all.
  destruct (JsMap.next i (_activeConnections s)) as [[j [tab conn]]|].
  - apply accounted_removeConnectedTab, accounted_close, H.
  - unfold last_tab_accounted. simpl. apply keys_clear.
Qed.

Lemma accounted_disconnect tabId s :
  last_tab_accounted s -> last_tab_accounted (_disconnect tabId s).
Proof.
  intros H. destruct tabId as [tabId|]; simpl; [|apply accounted_disconnect_all, H].
  destruct (JsMap.get tabId (_activeConnections s)) as [conn|].
  - apply accounted_removal, accounted_close, H.
  - eapply accounted_frame; [..|exact H]; auto.
Qed.

Lemma accounted_onTabRemoved tabId s :
  last_tab_accounted s -> last_tab_accounted (_onTabRemoved tabId s).
Proof.
  intros H. unfold _onTabRemoved.
  destruct (JsMap.get tabId (_pendingTabSelection s)) as [pending|].
  - apply accounted_close. exact H.
  - destruct (JsMap.get tabId (_activeConnections s)) as [conn|]; [|exact H].
    apply accounted_removal, accounted_close, H.
Qed.

Lemma accounted_onTabActivated_from activeTabId slots : forall i s,
  last_tab_accounted s ->
  last_tab_accounted (_onTabActivated_from activeTabId i slots s).
Proof.
  induction slots as [|[[tabId pending]|] rest IH]; intros i s H; simpl.
  - exact H.
  - destruct (Z.eqb tabId activeTabId); destruct (timerId pending) as [t|].
    + apply IH. exact H.
    + apply IH, H.
    + apply IH, H.
    + exact H.
  - apply IH, H.
Qed.

Lemma accounted_fire_timer t s :
  last_tab_accounted s -> last_tab_accounted (fire_timer t s).
Proof.
  intros H. unfold fire_timer.
  destruct (timers s !! t) as [tm|]; [|exact H].
  destruct (armed tm); [|exact H].
  unfold timer_callback.
  assert (H' : last_tab_accounted
                 (with_pending (JsMap.delete (timer_tabId tm))
                    (with_timers (alter disarm t) s))) by exact H.
  destruct (JsMap.has _ _); [|exact H'].
  apply (accounted_close (timer_connection tm)
           "Tab has been inactive for 5 seconds") in H'.
  revert H'. apply accounted_frame; auto.
Qed.

(** Taking a handler out of the queue leaves the account as it is,
    unless that handler was the one to settle it. *)
Lemma accounted_dequeue s i y :
  last_tab_accounted s -> tasks s !! i = Some y ->
  last_tab_accounted (with_tasks (delete i) s)
  \/ exists t, settles_last t y /\ _lastConnectedTabId s = Some t.
Proof.
  unfold last_tab_accounted. simpl. intros H Hi.
  destruct (_lastConnectedTabId s) as [t|]; [|left; exact H].
  destruct H as [H|(x & Hin & Hx)]; [left; left; exact H|].
  destruct (elem_delete_or _ _ _ _ Hi Hin) as [->|Hin'].
  - right. exists t. auto.
  - left. right. exists x. auto.
Qed.

Lemma accounted_resume s i t r :
  last_tab_accounted s -> tasks s !! i = Some t ->
  last_tab_accounted (resume t r (with_tasks (delete i) s)).
Proof.
  intros H Hi. pose proof (accounted_dequeue s i t H Hi) as Hd.
  destruct t as [sel url|cur|sel tab win|tab|tab k]; cbn [resume].
  - destruct Hd as [Hd|(t & [] & _)].
    eapply accounted_frame; [..|exact Hd]; destruct r; auto.
  - destruct Hd as [Hd|(t & [] & _)].
    eapply accounted_frame; [..|exact Hd]; destruct r; auto.
  - apply accounted_connectTab_bind.
    destruct Hd as [Hd|(t & <- & Hlast)]; [left; exact Hd|right; exact Hlast].
  - destruct Hd as [Hd|(t & [] & _)].
    destruct r as [tabs|message]; cbn [_connectTab_focused].
    + eapply accounted_frame; [..|exact Hd]; auto.
    + apply accounted_removeConnectedTab, Hd.
  - assert (H' : last_tab_accounted
                   (_removeConnectedTab_resumed tab (with_tasks (delete i) s))).
    { apply accounted_removeConnectedTab_resumed.
      destruct Hd as [Hd|(t & <- & Hlast)]; [left; exact Hd|right; exact Hlast]. }
    destruct k as [|resp|j]; cbn [continue].
    + exact H'.
    + eapply accounted_frame; [..|exact H']; auto.
    + apply accounted_disconnect_all, H'.
Qed.

Lemma accounted_handle e s :
  last_tab_accounted s -> last_tab_accounted (handle e s).
Proof.
  intros H. destruct e as [message sender|tab|tab|tab| |t|l|i r]; cbn [handle].
  - destruct message as [url| |tabId windowId url| | |tabId]; cbn [_onMessage].
    + eapply accounted_frame; [..|exact H]; try reflexivity.
      intros x Hin. simpl. apply elem_of_app. left. exact Hin.
    + eapply accounted_frame; [..|exact H]; try reflexivity.
      intros x Hin. simpl. apply elem_of_app. left. exact Hin.
    + apply accounted_connectTab, H.
    + eapply accounted_frame; [..|exact H]; auto.
    + eapply accounted_frame; [..|exact H]; auto.
    + apply accounted_disconnect, H.
  - apply accounted_onTabRemoved, H.
  - unfold _onTabUpdated. destruct (JsMap.has _ _); [|exact H].
    eapply accounted_frame; [..|exact H]; auto.
  - apply accounted_onTabActivated_from, H.
  - eapply accounted_frame; [..|exact H]; auto.
  - apply accounted_fire_timer, H.
  - apply accounted_notify_closed, H.
  - destruct (tasks s !! i) as [t|] eqn:Hi; [|exact H].
    apply accounted_resume; assumption.
Qed.

Lemma reachable_accounted s : reachable s -> last_tab_accounted s.
Proof.
  intros Hr. induction Hr as [|e s _ IH].
  - reflexivity.
  - apply accounted_handle, IH.
Qed.

End LastTab.

(** X9. In every reachable state in which no handler is suspended,
    whatever the requests, tab events, timers, link closures and host
    failures that led to it and whatever the order in which suspended
    handlers resumed: [_lastConnectedTabId] is [null] exactly when no
    connection is active, and otherwise it names a tab that has an
    active connection. *)
Theorem last_tab_names_an_active_tab (s : state) :
  reachable s -> quiescent s ->
  match _lastConnectedTabId s with
  | Some t => JsMap.has t (_activeConnections s) = true
  | None => JsMap.keys (_activeConnections s) = []
  end.
Proof.
  intros Hr Hq. pose proof (reachable_accounted s Hr) as H.
  unfold last_tab_accounted in H. rewrite Hq in H.
  destruct (_lastConnectedTabId s) as [t|]; [|exact H].
  destruct H as [H|(x & Hin & _)]; [exact H|inversion Hin].
Qed.

Lemma last_tab_names_an_active_tab_witness :
  _lastConnectedTabId two_active = Some 7
  /\ JsMap.has 7 (_activeConnections two_active) = true.
Proof.
  split; [reflexivity|].
  assert (Hr : reachable two_active).
  { apply reachable_settle, reachable_run, reachable_settle, reachable_run.
    apply reachable_initial. }
  exact (last_tab_names_an_active_tab two_active Hr eq_refl).
Defined.

(** ** Tab activation *)

Lemma armed_after_disarm t t' (tms : list Timer) tm :
  alter disarm t tms !! t' = Some tm -> armed tm = true ->
  t' <> t /\ tms !! t' = Some tm.
Proof.
  intros Hl Harmed. destruct (Nat.eq_dec t t') as [<-|Hne].
  - rewrite list_lookup_alter_eq in Hl.
    destruct (tms !! t) as [tm0|]; [|discriminate].
    injection Hl as <-. discriminate.
  - rewrite list_lookup_alter_ne in Hl by exact Hne. auto.
Qed.

Lemma update_at_middle {V} (f : V -> V) (pre : JsMap.t V) k v rest :
  JsMap.update_at (length pre) f (pre ++ Some (k, v) :: rest)
  = pre ++ Some (k, f v) :: rest.
Proof.
  unfold JsMap.update_at.
  match goal with
  | |- alter ?g _ _ = _ =>
      pose proof (alter_app_r g pre (Some (k, v) :: rest) 0) as H
  end.
  rewrite Nat.add_0_r in H. exact H.
Qed.

Lemma set_timerId_None p : timerId p = None -> set_timerId None p = p.
Proof.
  destruct p as [c t]. simpl. intros ->. reflexivity.
Qed.

(** The loop of [_onTabActivated] goes past the slots [passed] when
    all their entries, the focused tab's apart, hold a timer. *)
Lemma onTabActivated_passes activeTabId passed : forall pre rest s,
  _pendingTabSelection s = pre ++ passed ++ rest ->
  (forall k q, Some (k, q) ∈ passed -> k <> activeTabId -> timerId q <> None) ->
  exists s1,
    _onTabActivated_from activeTabId (length pre) (passed ++ rest) s
    = _onTabActivated_from activeTabId (length pre + length passed) rest s1
    /\ _pendingTabSelection s1 = pre ++ map (passed_slot activeTabId) passed ++ rest
    /\ passes_over activeTabId passed s s1.
Proof.
  induction passed as [|[[k q]|] passed IH]; intros pre rest s Hpend Hall.
  - exists s. rewrite Nat.add_0_r. split; [reflexivity|]. split; [exact Hpend|].
    unfold passes_over. repeat split; auto; inversion H.
  - assert (Hall' : forall k' q', Some (k', q') ∈ passed ->
                      k' <> activeTabId -> timerId q' <> None).
    { intros k' q' Hin. apply Hall. apply list_elem_of_further, Hin. }
    cbn [app _onTabActivated_from].
    destruct (Z.eqb_spec k activeTabId) as [->|Hne];
      [destruct (timerId q) as [t|] eqn:Ht|].
    + (* the focused tab, with a timer *)
      set (s2 := with_pending
                   (JsMap.update_at (length pre) (set_timerId None))
                   (clearTimeout t s)).
      destruct (IH (pre ++ [Some (activeTabId, set_timerId None q)]) rest s2)
        as (s1 & Heq & Hpend1 & Hover); [|exact Hall'|].
      { subst s2. cbn [_pendingTabSelection with_pending clearTimeout emit with_timers].
        rewrite Hpend. cbn [app]. rewrite update_at_middle, <- app_assoc. reflexivity. }
      rewrite length_app, Nat.add_1_r in Heq.
      exists s1. split; [rewrite Heq; f_equal; simpl; lia|].
      split.
      { rewrite Hpend1, <- app_assoc. cbn [app map passed_slot].
        rewrite Z.eqb_refl. reflexivity. }
      destruct Hover as (Ha & Hl & Hlk & Htk & Hlen & Harm & Htr & Hclr).
      unfold passes_over.
      split; [exact Ha|]. split; [exact Hl|]. split; [exact Hlk|].
      split; [exact Htk|].
      split; [rewrite Hlen; subst s2; simpl; apply length_alter|].
      split.
      { intros t' Ht'. apply Harm in Ht' as (tm & Hl' & Harmed).
        subst s2. simpl in Hl'.
        destruct (armed_after_disarm _ _ _ _ Hl' Harmed) as [_ Hl''].
        exists tm. auto. }
      split.
      { intros e He. apply Htr. subst s2. simpl. apply elem_of_app. left. exact He. }
      intros q' t' Hin Ht'. apply elem_of_cons in Hin as [[= <-]|Hin];
        [|exact (Hclr q' t' Hin Ht')].
      rewrite Ht in Ht'. injection Ht' as <-. split.
      * apply Htr. subst s2. simpl. apply elem_of_app. right. apply list_elem_of_here.
      * intros Ht'. apply Harm in Ht' as (tm & Hl' & Harmed).
        subst s2. simpl in Hl'.
        destruct (armed_after_disarm _ _ _ _ Hl' Harmed) as [Hne _]. congruence.
    + (* the focused tab, without a timer *)
      destruct (IH (pre ++ [Some (activeTabId, q)]) rest s)
        as (s1 & Heq & Hpend1 & Hover); [|exact Hall'|].
      { rewrite Hpend, <- app_assoc. reflexivity. }
      rewrite length_app, Nat.add_1_r in Heq.
      exists s1. split; [rewrite Heq; f_equal; simpl; lia|].
      split.
      { rewrite Hpend1, <- app_assoc. cbn [app map passed_slot].
        rewrite Z.eqb_refl, (set_timerId_None q Ht). reflexivity. }
      destruct Hover as (Ha & Hl & Hlk & Htk & Hlen & Harm & Htr & Hclr).
      unfold passes_over. repeat split; try assumption.
      all: apply elem_of_cons in H as [[= <-]|Hin]; [congruence|].
      all: exact (proj1 (Hclr q0 t Hin H0)) || exact (proj2 (Hclr q0 t Hin H0)).
    + (* another tab: it holds a timer *)
      destruct (timerId q) as [t|] eqn:Ht.
      2:{ exfalso. apply (Hall k q); [apply list_elem_of_here|exact Hne|exact Ht]. }
      destruct (IH (pre ++ [Some (k, q)]) rest s)
        as (s1 & Heq & Hpend1 & Hover); [|exact Hall'|].
      { rewrite Hpend, <- app_assoc. reflexivity. }
      rewrite length_app, Nat.add_1_r in Heq.
      exists s1. split; [rewrite Heq; f_equal; simpl; lia|].
      split.
      { rewrite Hpend1, <- app_assoc. cbn [app map passed_slot].
        destruct (Z.eqb_spec k activeTabId); [contradiction|reflexivity]. }
      destruct Hover as (Ha & Hl & Hlk & Htk & Hlen & Harm & Htr & Hclr).
      unfold passes_over. repeat split; try assumption.
      all: apply elem_of_cons in H as [[= <- <-]|Hin]; [contradiction|].
      all: exact (proj1 (Hclr q0 t0 Hin H0)) || exact (proj2 (Hclr q0 t0 Hin H0)).
  - assert (Hall' : forall k' q', Some (k', q') ∈ passed ->
                      k' <> activeTabId -> timerId q' <> None).
    { intros k' q' Hin. apply Hall. apply list_elem_of_further, Hin. }
    cbn [app _onTabActivated_from].
    destruct (IH (pre ++ [None]) rest s)
      as (s1 & Heq & Hpend1 & Hover); [|exact Hall'|].
    { rewrite Hpend, <- app_assoc. reflexivity. }
    rewrite length_app, Nat.add_1_r in Heq.
    exists s1. split; [rewrite Heq; f_equal; simpl; lia|].
    split; [rewrite Hpend1, <- app_assoc; reflexivity|].
    destruct Hover as (Ha & Hl & Hlk & Htk & Hlen & Harm & Htr & Hclr).
    unfold passes_over. repeat split; try assumption.
    all: apply elem_of_cons in H as [Heq'|Hin]; [discriminate|].
    all: exact (proj1 (Hclr q t Hin H0)) || exact (proj2 (Hclr q t Hin H0)).
Qed.

Lemma get_passed_slot activeTabId k (m : JsMap.t PendingSelection) :
  JsMap.get k (map (passed_slot activeTabId) m)
  = if Z.eqb k activeTabId then set_timerId None <$> JsMap.get k m
    else JsMap.get k m.
Proof.
  induction m as [|[[k' q]|] m IH]; simpl.
  - destruct (Z.eqb k activeTabId); reflexivity.
  - destruct (Z.eqb_spec k' activeTabId) as [->|Hne]; simpl.
    + destruct (Z.eqb_spec activeTabId k) as [<-|Hne'].
      * rewrite Z.eqb_refl. reflexivity.
      * exact IH.
    + destruct (Z.eqb_spec k' k) as [->|Hne']; [|exact IH].
      destruct (Z.eqb_spec k activeTabId); [contradiction|reflexivity].
  - exact IH.
Qed.

Lemma fire_unarmed_timer t s : ~ timer_is_armed t s -> fire_timer t s = s.
Proof.
  intros H. unfold fire_timer. destruct (timers s !! t) as [tm|] eqn:Ht; [|reflexivity].
  destruct (armed tm) eqn:Harmed; [|reflexivity].
  exfalso. apply H. exists tm. auto.
Qed.

(** X10. The focused tab's timer is cancelled when every other
    pending entry already holds a timer: the loop of [_onTabActivated]
    then runs to its end (it never reaches the [return] of line 225).
    The entry of the focused tab holds no timer id afterwards, its
    timer was passed to [clearTimeout] and is no longer armed, so
    that the host firing it does nothing; the other entries are as
    they were, no timer is armed and nothing else changes. *)
Theorem focus_clears_timer_when_others_wait (s : state) (activeTabId : Z) :
  (forall k q, Some (k, q) ∈ _pendingTabSelection s ->
     k <> activeTabId -> timerId q <> None) ->
  let s' := handle (TabActivated activeTabId) s in
  (forall q t, JsMap.get activeTabId (_pendingTabSelection s) = Some q ->
     timerId q = Some t ->
     JsMap.get activeTabId (_pendingTabSelection s')
       = Some {| connection := connection q; timerId := None |}
     /\ ClearTimeout t ∈ trace s'
     /\ ~ timer_is_armed t s'
     /\ handle (TimerFired t) s' = s')
  /\ (forall k, k <> activeTabId ->
        JsMap.get k (_pendingTabSelection s') = JsMap.get k (_pendingTabSelection s))
  /\ length (timers s') = length (timers s)
  /\ (forall t, timer_is_armed t s' -> timer_is_armed t s)
  /\ _activeConnections s' = _activeConnections s
  /\ _lastConnectedTabId s' = _lastConnectedTabId s
  /\ links s' = links s
  /\ tasks s' = tasks s.
Proof.
  intros Hall. cbn [handle]. unfold _onTabActivated.
  destruct (onTabActivated_passes activeTabId (_pendingTabSelection s) [] [] s)
    as (s1 & Heq & Hpend & Ha & Hl & Hlk & Htk & Hlen & Harm & Htr & Hclr).
  { rewrite app_nil_r. reflexivity. }
  { exact Hall. }
  rewrite app_nil_r in Heq, Hpend. cbn [length app] in Heq, Hpend.
  rewrite Heq. cbn [_onTabActivated_from].
  split; [|split; [|repeat split; assumption]].
  - intros q t Hget Ht.
    destruct (Hclr q t (JsMapFacts.get_elem _ _ _ Hget) Ht) as [Hin Hoff].
    split; [|split; [exact Hin|split; [exact Hoff|apply fire_unarmed_timer, Hoff]]].
    rewrite Hpend, get_passed_slot, Z.eqb_refl, Hget. reflexivity.
  - intros k Hne. rewrite Hpend, get_passed_slot.
    destruct (Z.eqb_spec k activeTabId); [contradiction|reflexivity].
Qed.

Lemma focus_clears_timer_when_others_wait_witness :
  let s := run [TabActivated 3; TabActivated 3] two_pending in
  let s' := handle (TabActivated 2) s in
  JsMap.get 2 (_pendingTabSelection s) = Some {| connection := 1; timerId := Some 1%nat |}
  /\ timer_is_armed 1 s
  /\ JsMap.get 2 (_pendingTabSelection s') = Some {| connection := 1; timerId := None |}
  /\ ~ timer_is_armed 1 s'
  /\ handle (TimerFired 1) s' = s'.
Proof.
  split; [reflexivity|]. split; [eexists; split; reflexivity|].
  destruct (focus_clears_timer_when_others_wait
              (run [TabActivated 3; TabActivated 3] two_pending) 2) as [Hfocus _].
  - intros k q Hin Hne.
    change (_pendingTabSelection (run [TabActivated 3; TabActivated 3] two_pending))
      with [Some (1, {| connection := 0%nat; timerId := Some 0%nat |});
            Some (2, {| connection := 1%nat; timerId := Some 1%nat |})] in Hin.
    apply elem_of_cons in Hin as [[= -> ->]|Hin]; [discriminate|].
    apply elem_of_cons in Hin as [[= -> ->]|Hin]; [discriminate|].
    inversion Hin.
  - destruct (Hfocus {| connection := 1%nat; timerId := Some 1%nat |} 1%nat
                eq_refl eq_refl) as (H1 & _ & H3 & H4).
    auto.
Defined.

(** X11. Which entry gets the timer.  The first pending entry, in
    the order in which the entries were made, that is not the focused
    tab's and holds no timer gets a timer of 5000 ms that remembers its
    tab and its link; the entries before it are gone past (a timer of
    the focused tab is cleared), the entries after it are not looked at
    (line 225). *)
Theorem first_idle_entry_gets_timer
    (s : state) (activeTabId tabId : Z) (pending : PendingSelection)
    (before after : JsMap.t PendingSelection) :
  _pendingTabSelection s = before ++ Some (tabId, pending) :: after ->
  tabId <> activeTabId ->
  timerId pending = None ->
  (forall k q, Some (k, q) ∈ before -> k <> activeTabId -> timerId q <> None) ->
  let s' := handle (TabActivated activeTabId) s in
  let t := length (timers s) in
  _pendingTabSelection s'
    = map (passed_slot activeTabId) before
      ++ Some (tabId, {| connection := connection pending; timerId := Some t |})
      :: after
  /\ timers s' !! t
     = Some {| timer_tabId := tabId; timer_connection := connection pending;
               armed := true |}
  /\ length (timers s') = S (length (timers s))
  /\ last (trace s') = Some (SetTimeout t 5000)
  /\ _activeConnections s' = _activeConnections s
  /\ _lastConnectedTabId s' = _lastConnectedTabId s
  /\ links s' = links s
  /\ tasks s' = tasks s.
Proof.
  intros Hpend Hne Hidle Hall. cbn [handle]. unfold _onTabActivated.
  destruct (onTabActivated_passes activeTabId before []
              (Some (tabId, pending) :: after) s Hpend Hall)
    as (s1 & Heq & Hpend1 & Ha & Hl & Hlk & Htk & Hlen & Harm & Htr & Hclr).
  cbn [length app Nat.add] in Heq, Hpend1.
  rewrite Hpend, Heq. cbn [_onTabActivated_from].
  destruct (Z.eqb_spec tabId activeTabId) as [Heq'|_]; [contradiction|].
  rewrite Hidle. unfold setTimeout.
  cbn [with_pending emit with_timers _pendingTabSelection timers trace
       _activeConnections _lastConnectedTabId links tasks].
  rewrite Hlen. split.
  { rewrite Hpend1, <- (length_map (passed_slot activeTabId) before).
    rewrite update_at_middle. reflexivity. }
  split; [apply list_lookup_middle; symmetry; exact Hlen|].
  split; [rewrite length_app, Hlen; simpl; lia|].
  split; [apply last_snoc|].
  repeat split; assumption.
Qed.

Lemma first_idle_entry_gets_timer_witness :
  let s := run [TabActivated 3] two_pending in
  let s' := handle (TabActivated 3) s in
  _pendingTabSelection s
    = [Some (1, {| connection := 0%nat; timerId := Some 0%nat |});
       Some (2, {| connection := 1%nat; timerId := None |})]
  /\ _pendingTabSelection s'
    = [Some (1, {| connection := 0%nat; timerId := Some 0%nat |});
       Some (2, {| connection := 1%nat; timerId := Some 1%nat |})]
  /\ timers s' !! 1%nat
     = Some {| timer_tabId := 2; timer_connection := 1%nat; armed := true |}.
Proof.
  split; [reflexivity|].
  destruct (first_idle_entry_gets_timer (run [TabActivated 3] two_pending) 3 2
              {| connection := 1%nat; timerId := None |}
              [Some (1, {| connection := 0%nat; timerId := Some 0%nat |})] [])
    as (H1 & H2 & _).
  - reflexivity.
  - discriminate.
  - reflexivity.
  - intros k q Hin _. apply elem_of_cons in Hin as [[= -> ->]|Hin]; [discriminate|].
    inversion Hin.
  - split; [exact H1|exact H2].
Defined.

(** ** A link is bound once *)
Section BoundOnce.
Variable l : link.
Variable tabId : Z.

Lemma stays_bound_frame s s' :
  _pendingTabSelection s' = _pendingTabSelection s ->
  _activeConnections s' = _activeConnections s ->
  links s' = links s ->
  links_sound s /\ bound_to l tabId s -> links_sound s' /\ bound_to l tabId s'.
Proof.
  intros Hp Ha Hl [Hs Hb]. split; [exact (sound_frame s s' Hp Ha Hl Hs)|].
  unfold bound_to. rewrite Hl. exact Hb.
Qed.

Lemma stays_bound_notify_closed l' s :
  links_sound s /\ bound_to l tabId s ->
  links_sound (notify_closed l' s) /\ bound_to l tabId (notify_closed l' s).
Proof.
  intros [Hs Hb]. split; [apply sound_notify_closed, Hs|].
  unfold notify_closed.
  destruct (links s !! l') as [c'|] eqn:Hl'; [|exact Hb].
  destruct (closed c'); [exact Hb|].
  destruct Hb as (c & Hl & Hc).
  destruct (bound_after_closing l' c' _ l c Hl' Hl) as (c'' & H1 & H2).
  assert (Hb' : bound_to l tabId (with_links (fun h => <[l' := set_closed c']> h) s)).
  { exists c''. split; [exact H1|congruence]. }
  destruct (onclose c'); exact Hb'.
Qed.

Lemma stays_bound_connectToRelay_resumed selectorTabId r s :
  links_sound s /\ bound_to l tabId s ->
  links_sound (_connectToRelay_resumed selectorTabId r s)
  /\ bound_to l tabId (_connectToRelay_resumed selectorTabId r s).
Proof.
  intros [Hs Hb]. split; [apply sound_connectToRelay_resumed, Hs|].
  destruct r as [tabs|message]; [|exact Hb].
  destruct Hb as (c & Hl & Hc). exists c. split; [|exact Hc].
  simpl. apply lookup_app_l_Some, Hl.
Qed.

(** [setTabId] (line 142) is called on the link of a pending entry,
    and such a link is bound to no tab. *)
Lemma stays_bound_connectTab_bind selectorTabId target windowId s :
  links_sound s /\ bound_to l tabId s ->
  links_sound (_connectTab_bind selectorTabId target windowId s)
  /\ bound_to l tabId (_connectTab_bind selectorTabId target windowId s).
Proof.
  intros [Hs Hb]. split; [apply sound_connectTab_bind, Hs|].
  unfold _connectTab_bind.
  destruct (JsMap.get selectorTabId (_pendingTabSelection s)) as [pending|] eqn:Hget;
    [|exact Hb].
  destruct Hb as (c & Hl & Hc). exists c. split; [|exact Hc]. simpl.
  destruct Hs as [_ [Hbp _]].
  destruct (Hbp _ _ (JsMapFacts.get_elem _ _ _ Hget)) as (c' & Hl' & Hc').
  destruct (Nat.eq_dec (connection pending) l) as [Heq|Hne].
  - rewrite Heq, Hl in Hl'. injection Hl' as <-. congruence.
  - rewrite !list_lookup_alter_ne by exact Hne. exact Hl.
Qed.

Lemma stays_bound_handle e s :
  links_sound s /\ bound_to l tabId s ->
  links_sound (handle e s) /\ bound_to l tabId (handle e s).
Proof.
  apply (preserved_handle (fun s => links_sound s /\ bound_to l tabId s)
           stays_bound_frame).
  - intros k s0 [Hs Hb]. split; [apply sound_delete_pending, Hs|exact Hb].
  - intros k s0 [Hs Hb]. split; [apply sound_delete_active, Hs|exact Hb].
  - intros s0 [Hs Hb]. split; [apply sound_clear_active, Hs|exact Hb].
  - intros i v s0 [Hs Hb]. split; [apply sound_set_timerId, Hs|exact Hb].
  - exact stays_bound_notify_closed.
  - exact stays_bound_connectToRelay_resumed.
  - exact stays_bound_connectTab_bind.
Qed.

End BoundOnce.

(** X12. The tab of a link never changes.  Once a link is bound to a
    tab in a reachable state, it is bound to that tab after any
    further requests, tab events, timers, closures and resumptions:
    [setTabId] (line 142) is only ever called on a link that has no
    tab yet. *)
Theorem bound_tab_never_changes
    (s : state) (l : link) (tabId : Z) (events : list event) :
  reachable s -> bound_to l tabId s -> bound_to l tabId (run events s).
Proof.
  intros Hr Hb.
  assert (H : links_sound s /\ bound_to l tabId s)
    by (split; [apply reachable_sound, Hr|exact Hb]).
  clear Hr Hb. revert s H. unfold run.
  induction events as [|e events IH]; intros s H; simpl.
  - exact (proj2 H).
  - apply IH, stays_bound_handle, H.
Qed.

Lemma bound_tab_never_changes_witness :
  let rebind := handshake 1 ++ [bind 1 3] ++ replicate 3 (Resume 0 (Fulfilled [])) in
  bound_to 0 3 two_active
  /\ bound_to 0 3 (run rebind two_active)
  /\ is_closed 0 (run rebind two_active)
  /\ JsMap.get 3 (_activeConnections (run rebind two_active)) = Some 2%nat.
Proof.
  assert (Hr : reachable two_active).
  { apply reachable_settle, reachable_run, reachable_settle, reachable_run.
    apply reachable_initial. }
  assert (Hb : bound_to 0 3 two_active) by (eexists; split; reflexivity).
  split; [exact Hb|].
  split; [|split; [eexists; split; reflexivity|reflexivity]].
  exact (bound_tab_never_changes two_active 0 3
           (handshake 1 ++ [bind 1 3] ++ replicate 3 (Resume 0 (Fulfilled [])))
           Hr Hb).
Defined.

(** ** The relay end closes a link *)

(** X13. When the relay closes the link of a pending entry (lines
    107-111), in a reachable state: the entry of that selector tab is
    deleted and the link is closed; no call leaves the broker, the
    other pending entries, the active connections,
    [_lastConnectedTabId], the timers and the suspended handlers are
    as they were. *)
Theorem relay_close_drops_pending_entry
    (s : state) (selectorTabId : Z) (pending : PendingSelection) :
  reachable s ->
  JsMap.get selectorTabId (_pendingTabSelection s) = Some pending ->
  let s' := handle (SocketClosed (connection pending)) s in
  JsMap.get selectorTabId (_pendingTabSelection s') = None
  /\ (forall k, k <> selectorTabId ->
        JsMap.get k (_pendingTabSelection s') = JsMap.get k (_pendingTabSelection s))
  /\ is_closed (connection pending) s'
  /\ trace s' = trace s
  /\ _activeConnections s' = _activeConnections s
  /\ _lastConnectedTabId s' = _lastConnectedTabId s
  /\ timers s' = timers s
  /\ tasks s' = tasks s.
Proof.
  intros Hr Hget.
  destruct (pending_link_open s selectorTabId pending (reachable_consistent s Hr) Hget)
    as (c & Hc & Hopen & Hh).
  cbn [handle]. rewrite (notify_open_link _ _ c Hc Hopen), Hh. cbn [run_onclose].
  split; [apply JsMapFacts.get_delete|].
  split; [intros k Hne; apply JsMapFacts.get_delete_ne; congruence|].
  split; [|repeat split; reflexivity].
  exists (set_closed c). split; [|reflexivity].
  simpl. apply list_lookup_insert_eq. exact (lookup_lt_Some _ _ _ Hc).
Qed.

Lemma relay_close_drops_pending_entry_witness :
  let s' := handle (SocketClosed 0) pending_armed in
  JsMap.get 1 (_pendingTabSelection pending_armed)
    = Some {| connection := 0; timerId := Some 0%nat |}
  /\ JsMap.get 1 (_pendingTabSelection s') = None
  /\ is_closed 0 s'
  /\ trace s' = trace pending_armed.
Proof.
  split; [reflexivity|].
  assert (Hr : reachable pending_armed).
  { apply reachable_run, reachable_run, reachable_initial. }
  destruct (relay_close_drops_pending_entry pending_armed 1
              {| connection := 0%nat; timerId := Some 0%nat |} Hr eq_refl)
    as (H1 & _ & H3 & H4 & _).
  auto.
Defined.

(** ** A handshake that fails *)

(** X14. [connectToMCPRelay] when the socket does not open (error or
    the 5-second timeout, line 102 or 103), whatever else is
    suspended: the page is answered
    [{ success: false, error: 'Failed to connect to MCP relay: ...' }]
    with the message of the failure, no link is created and no pending
    entry is written: maps, links, timers and [_lastConnectedTabId]
    are as before the request. *)
Theorem failed_handshake_leaves_no_entry
    (s : state) (sender : MessageSender) (url message : string) :
  let s' := handle (Resume (length (tasks s)) (Rejected message))
              (handle (Message (connectToMCPRelay url) sender) s) in
  same_broker_state s s'
  /\ timers s' = timers s
  /\ tasks s' = tasks s
  /\ trace s' = trace s
       ++ [NewWebSocket url;
           SendResponse (Failure ("Failed to connect to MCP relay: " ++ message))].
Proof.
  rewrite handle_message. cbn [_onMessage handle]. unfold _connectToRelay, suspend.
  cbn [with_tasks emit tasks].
  rewrite list_lookup_middle by reflexivity.
  destruct s as [act lst pend lks tms tks tr].
  cbv [with_tasks resume _connectToRelay_resumed emit same_broker_state
       _activeConnections _lastConnectedTabId _pendingTabSelection
       links timers tasks trace].
  rewrite delete_last_task, <- app_assoc. repeat split.
Qed.

(** ** What the status query reports *)

(** X15. [getConnectionStatus] in a reachable state with no handler
    suspended: [connectedTabIds] lists no tab twice, [connectedTabId]
    is one of the listed tabs, and it is [null] only when the list is
    empty. *)
Theorem status_is_coherent (s : state) (sender : MessageSender) :
  reachable s -> quiescent s ->
  exists connectedTabId connectedTabIds,
    trace (handle (Message getConnectionStatus sender) s)
    = trace s ++ [SendResponse (ConnectionStatus connectedTabId connectedTabIds)]
    /\ NoDup connectedTabIds
    /\ match connectedTabId with
       | Some t => t ∈ connectedTabIds
       | None => connectedTabIds = []
       end.
Proof.
  intros Hr Hq.
  exists (_lastConnectedTabId s), (JsMap.keys (_activeConnections s)).
  split; [reflexivity|].
  split; [exact (proj2 (reachable_keys_unique s Hr))|].
  pose proof (reachable_accounted s Hr) as H.
  unfold last_tab_accounted in H. rewrite Hq in H.
  destruct (_lastConnectedTabId s) as [t|]; [|exact H].
  destruct H as [H|(x & Hin & _)]; [|inversion Hin].
  apply list_elem_of_In, JsMapFacts.keys_has, H.
Qed.

Lemma status_is_coherent_witness :
  exists connectedTabId connectedTabIds,
    trace (handle (Message getConnectionStatus (from_tab 1)) two_active)
    = trace two_active
      ++ [SendResponse (ConnectionStatus connectedTabId connectedTabIds)]
    /\ NoDup connectedTabIds
    /\ match connectedTabId with
       | Some t => t ∈ connectedTabIds
       | None => connectedTabIds = []
       end.
Proof.
  apply (status_is_coherent two_active (from_tab 1)).
  - apply reachable_settle, reachable_run, reachable_settle, reachable_run.
    apply reachable_initial.
  - reflexivity.
Defined.

(** ** Badge refresh *)

(** X16. A tab update (navigation, reload) of a tab that has an
    active connection calls [setBadgeText] with the text of the
    connected badge, in the turn of the event; for any other tab the
    event makes no call and changes nothing at all.  In neither case
    are maps, links, timers or [_lastConnectedTabId] changed. *)
Theorem tab_update_refreshes_badge (s : state) (tabId : Z) :
  let s' := handle (TabUpdated tabId) s in
  same_broker_state s s'
  /\ timers s' = timers s
  /\ if JsMap.has tabId (_activeConnections s)
     then exists later,
            trace s' = trace s ++ SetBadgeText tabId connected_glyph :: later
     else s' = s.
Proof.
  cbn [handle]. unfold _onTabUpdated.
  destruct (JsMap.has tabId (_activeConnections s)).
  - unfold same_broker_state. simpl. rewrite <- !app_assoc.
    repeat split. eexists. reflexivity.
  - repeat split.
Qed.

(** ** The status page and the background script *)
Section StatusPageFacts.
Variable tabs_get : Z -> option StatusPage.TabInfo.
Variable page : MessageSender.

(** [chrome.tabs.get(tabId)] yields the tab with that id. *)
Hypothesis tabs_get_id : forall k tab, tabs_get k = Some tab -> StatusPage.id tab = k.

Lemma connectedTabs_eq s :
  StatusPage.connectedTabs tabs_get page s
  = omap tabs_get (JsMap.keys (_activeConnections s)).
Proof.
  unfold StatusPage.connectedTabs, StatusPage.answered.
  rewrite handle_message. cbn [_onMessage emit trace]. rewrite last_snoc.
  cbn [StatusPage.loadStatus].
  destruct (JsMap.keys (_activeConnections s)); reflexivity.
Qed.

Lemma looked_up_ids (ids : list Z) :
  sublist (map StatusPage.id (omap tabs_get ids)) ids
  /\ forall t, t ∈ map StatusPage.id (omap tabs_get ids)
               <-> t ∈ ids /\ tabs_get t <> None.
Proof.
  induction ids as [|k ids [IHs IHe]]; simpl.
  - split; [apply sublist_nil|]. intros t. split.
    + intros H. inversion H.
    + intros [H _]. inversion H.
  - destruct (tabs_get k) as [tab|] eqn:Hk; simpl.
    + rewrite (tabs_get_id k tab Hk).
      split; [apply sublist_skip, IHs|].
      intros t. rewrite !elem_of_cons, IHe. split.
      * intros [->|[Hin Hget]]; [|auto]. split; [auto|]. rewrite Hk. discriminate.
      * intros [[->|Hin] Hget]; auto.
    + split; [apply sublist_cons, IHs|].
      intros t. rewrite elem_of_cons, IHe. split.
      * intros [Hin Hget]. auto.
      * intros [[->|Hin] Hget]; [contradiction|auto].
Qed.

Lemma connectedTabs_shown s t :
  t ∈ map StatusPage.id (StatusPage.connectedTabs tabs_get page s)
  <-> JsMap.has t (_activeConnections s) = true /\ tabs_get t <> None.
Proof.
  rewrite connectedTabs_eq, (proj2 (looked_up_ids _)).
  rewrite list_elem_of_In, JsMapFacts.keys_has. reflexivity.
Qed.

Lemma has_get_if {V} (m m' : JsMap.t V) (P : Z -> bool) :
  (forall t, JsMap.get t m' = if P t then None else JsMap.get t m) ->
  forall t, JsMap.has t m' = if P t then false else JsMap.has t m.
Proof.
  intros H t. unfold JsMap.has. rewrite H. destruct (P t); reflexivity.
Qed.

(** [_disconnect] with a tab id, run to its end, as the page sees it. *)
Lemma disconnect_answers (s : state) (tabId : Z) (conn : link) :
  reachable s -> quiescent s ->
  JsMap.get tabId (_activeConnections s) = Some conn ->
  let s' := settle 2 (handle (Message (disconnect (Some tabId)) page) s) in
  StatusPage.answered s' = Some Success
  /\ forall t, JsMap.get t (_activeConnections s')
               = if Z.eqb t tabId then None else JsMap.get t (_activeConnections s).
Proof.
  intros Hr Hq Hget s'. subst s'.
  destruct (active_link_open s tabId conn (reachable_consistent s Hr) Hget)
    as (c & Hc & Hopen & Hh).
  clear Hr. cbn [handle _onMessage _disconnect]. rewrite Hget.
  rewrite (close_open_link _ _ _ c Hc Hopen), Hh.
  destruct s as [act lst pend lks tms tks tr].
  unfold quiescent in Hq. simpl in Hq, Hget, Hc. subst tks.
  settle_all. unfold StatusPage.answered. norm.
  split; [rewrite last_snoc; reflexivity|].
  intros t. rewrite !get_delete_if. destruct (Z.eqb t tabId); reflexivity.
Qed.

End StatusPageFacts.

(** X17. What the status page lists.  [loadStatus], run against the
    background script in any state, yields the connected tabs that
    [chrome.tabs.get] still finds, in the order of [connectedTabIds]:
    a tab is listed exactly when it has an active connection and can
    be looked up. *)
Theorem status_page_lists_open_connected_tabs
    (tabs_get : Z -> option StatusPage.TabInfo) (page : MessageSender) (s : state) :
  (forall k tab, tabs_get k = Some tab -> StatusPage.id tab = k) ->
  let rows := StatusPage.connectedTabs tabs_get page s in
  sublist (map StatusPage.id rows) (JsMap.keys (_activeConnections s))
  /\ (forall t, t ∈ map StatusPage.id rows
                <-> JsMap.has t (_activeConnections s) = true /\ tabs_get t <> None)
  /\ (length rows <= JsMap.size (_activeConnections s))%nat.
Proof.
  intros Hid rows. subst rows.
  split; [|split].
  - rewrite connectedTabs_eq. apply (looked_up_ids tabs_get Hid).
  - intros t. apply connectedTabs_shown. exact Hid.
  - rewrite connectedTabs_eq. unfold JsMap.size, JsMap.keys.
    generalize (JsMap.entries (_activeConnections s)).
    intros es. induction es as [|[k v] es IH]; simpl; [lia|].
    destruct (tabs_get k); simpl.
    + apply -> Nat.succ_le_mono. exact IH.
    + apply Nat.le_le_succ_r. exact IH.
Qed.

Lemma status_page_lists_open_connected_tabs_witness :
  let tabs_get k :=
    if Z.eqb k 7
    then Some {| StatusPage.id := 7; StatusPage.windowId := 10;
                 StatusPage.title := "Example"; StatusPage.url := "https://example.org/";
                 StatusPage.favIconUrl := None |}
    else None in
  map StatusPage.id (StatusPage.connectedTabs tabs_get (from_tab 9) two_active) = [7]
  /\ JsMap.keys (_activeConnections two_active) = [3; 7]
  /\ sublist (map StatusPage.id (StatusPage.connectedTabs tabs_get (from_tab 9) two_active))
       (JsMap.keys (_activeConnections two_active)).
Proof.
  intros tabs_get. split; [reflexivity|]. split; [reflexivity|].
  apply (status_page_lists_open_connected_tabs tabs_get (from_tab 9) two_active).
  intros k tab. subst tabs_get. simpl.
  destruct (Z.eqb_spec k 7) as [->|_]; [|discriminate].
  intros [= <-]. reflexivity.
Defined.

(** X18. The [Disconnect] button of a row (lines 67-70, 92).  With
    the background script in a reachable state and no handler
    suspended, [disconnectTab(tabId)] for a connected tab is answered
    [{ success: true }], and the list loaded afterwards no longer has
    the row of [tabId]; every other row is there exactly if it was
    before. *)
Theorem disconnect_button_removes_row
    (tabs_get : Z -> option StatusPage.TabInfo) (page : MessageSender)
    (s : state) (tabId : Z) :
  (forall k tab, tabs_get k = Some tab -> StatusPage.id tab = k) ->
  reachable s -> quiescent s ->
  JsMap.has tabId (_activeConnections s) = true ->
  let s' := settle 2 (handle (Message (disconnect (Some tabId)) page) s) in
  StatusPage.answered s' = Some Success
  /\ forall t, t ∈ map StatusPage.id (StatusPage.connectedTabs tabs_get page s')
               <-> t <> tabId
                   /\ t ∈ map StatusPage.id (StatusPage.connectedTabs tabs_get page s).
Proof.
  intros Hid Hr Hq Hhas s'. subst s'.
  unfold JsMap.has in Hhas.
  destruct (JsMap.get tabId (_activeConnections s)) as [conn|] eqn:Hget;
    [|discriminate].
  destruct (disconnect_answers page s tabId conn Hr Hq Hget) as [Hanswer Hgets].
  split; [exact Hanswer|].
  intros t. rewrite !(connectedTabs_shown tabs_get page Hid).
  rewrite (has_get_if _ _ (fun t => Z.eqb t tabId) Hgets).
  destruct (Z.eqb_spec t tabId) as [->|Hne].
  - split; [intros [H _]; discriminate|intros [H _]; contradiction].
  - tauto.
Qed.

Lemma disconnect_button_removes_row_witness :
  let tabs_get k :=
    Some {| StatusPage.id := k; StatusPage.windowId := 10;
            StatusPage.title := "Example"; StatusPage.url := "https://example.org/";
            StatusPage.favIconUrl := None |} in
  let s' := settle 2 (handle (Message (disconnect (Some 7)) (from_tab 9)) two_active) in
  map StatusPage.id (StatusPage.connectedTabs tabs_get (from_tab 9) two_active) = [3; 7]
  /\ StatusPage.answered s' = Some Success
  /\ ~ 7 ∈ map StatusPage.id (StatusPage.connectedTabs tabs_get (from_tab 9) s').
Proof.
  intros tabs_get s'. split; [reflexivity|].
  assert (Hr : reachable two_active).
  { apply reachable_settle, reachable_run, reachable_settle, reachable_run.
    apply reachable_initial. }
  destruct (disconnect_button_removes_row tabs_get (from_tab 9) two_active 7)
    as [Hanswer Hrows].
  - intros k tab [= <-]. reflexivity.
  - exact Hr.
  - reflexivity.
  - reflexivity.
  - split; [exact Hanswer|].
    intros Hin. apply Hrows in Hin as [Hne _]. apply Hne. reflexivity.
Defined.

(** X19. The [Disconnect All] button (lines 72-75, 102).  With the
    background script in a reachable state and no handler suspended,
    [disconnectAll()] is answered [{ success: true }] once the loop
    of [_disconnect] has ended, and the page then shows
    'No MCP clients are currently connected.' *)
Theorem disconnect_all_button_empties_page
    (tabs_get : Z -> option StatusPage.TabInfo) (page : MessageSender)
    (s : state) (fuel : nat) :
  reachable s -> quiescent s ->
  (2 * length (_activeConnections s) <= fuel)%nat ->
  let s' := settle fuel (handle (Message (disconnect None) page) s) in
  StatusPage.answered s' = Some Success
  /\ StatusPage.connectedTabs tabs_get page s' = []
  /\ StatusPage.StatusApp (StatusPage.connectedTabs tabs_get page s')
     = StatusPage.NoClients.
Proof.
  intros Hr Hq Hfuel s'. subst s'.
  destruct (disconnect_all_settles s page fuel Hr Hq Hfuel)
    as (_ & Hkeys & _ & Hlast & _).
  assert (Hrows : StatusPage.connectedTabs tabs_get page
                    (settle fuel (handle (Message (disconnect None) page) s)) = []).
  { rewrite connectedTabs_eq, Hkeys. reflexivity. }
  split; [unfold StatusPage.answered; rewrite Hlast; reflexivity|].
  split; [exact Hrows|]. rewrite Hrows. reflexivity.
Qed.

Lemma disconnect_all_button_empties_page_witness :
  let tabs_get k :=
    Some {| StatusPage.id := k; StatusPage.windowId := 10;
            StatusPage.title := "Example"; StatusPage.url := "https://example.org/";
            StatusPage.favIconUrl := None |} in
  let s' := settle 4 (handle (Message (disconnect None) (from_tab 9)) two_active) in
  StatusPage.StatusApp (StatusPage.connectedTabs tabs_get (from_tab 9) two_active)
  = StatusPage.ConnectedTabs (StatusPage.PagesWithClients 2)
      (StatusPage.connectedTabs tabs_get (from_tab 9) two_active) true
  /\ StatusPage.StatusApp (StatusPage.connectedTabs tabs_get (from_tab 9) s')
     = StatusPage.NoClients.
Proof.
  intros tabs_get s'. split; [vm_compute; reflexivity|].
  assert (Hr : reachable two_active).
  { apply reachable_settle, reachable_run, reachable_settle, reachable_run.
    apply reachable_initial. }
  destruct (disconnect_all_button_empties_page tabs_get (from_tab 9) two_active 4
              Hr eq_refl) as (_ & _ & Hview).
  - simpl. lia.
  - exact Hview.
Defined.

(** ** The timers the pending entries hold *)
Section HeldTimers.
Import JsMapFacts.

Lemma held_frame s s' :
  _pendingTabSelection s' = _pendingTabSelection s ->
  timers s' = timers s ->
  timers_held s -> timers_held s'.
Proof.
  unfold timers_held. intros -> ->. auto.
Qed.

Lemma held_delete_pending k s :
  timers_held s -> timers_held (with_pending (JsMap.delete k) s).
Proof.
  intros H k' p t Hin. apply elem_delete in Hin as [_ Hin]. exact (H k' p t Hin).
Qed.

Lemma held_notify_closed l s : timers_held s -> timers_held (notify_closed l s).
Proof.
  intros H. unfold notify_closed.
  destruct (links s !! l) as [c|]; [|exact H].
  destruct (closed c); [exact H|].
  destruct (onclose c) as [|k|k]; cbn [run_onclose].
  - exact H.
  - apply held_delete_pending. exact H.
  - exact H.
Qed.

Lemma held_close l reason s : timers_held s -> timers_held (close l reason s).
Proof.
  intros H. apply held_notify_closed. exact H.
Qed.

(** Line 112 stores a record without timer id. *)
Lemma held_connectToRelay_resumed selectorTabId r s :
  timers_held s -> timers_held (_connectToRelay_resumed selectorTabId r s).
Proof.
  intros H. destruct r as [tabs|message]; [|exact H].
  intros k p t Hin. simpl in Hin.
  apply elem_set in Hin as [[-> ->]|[_ Hin]]; [discriminate|].
  exact (H k p t Hin).
Qed.

Lemma held_connectTab_bind selectorTabId tabId windowId s :
  timers_held s -> timers_held (_connectTab_bind selectorTabId tabId windowId s).
Proof.
  intros H. unfold _connectTab_bind.
  destruct (JsMap.get selectorTabId (_pendingTabSelection s)) as [pending|];
    [|exact H].
  exact (held_delete_pending selectorTabId s H).
Qed.

Lemma held_connectTab selectorTabId tabId windowId s :
  timers_held s -> timers_held (_connectTab selectorTabId tabId windowId s).
Proof.
  intros H. unfold _connectTab.
  destruct (JsMap.get tabId (_activeConnections s)) as [existing|];
    [|apply held_connectTab_bind, H].
  exact (held_close existing "New connection requested for this tab" s H).
Qed.

Lemma held_disconnect_all i s :
  timers_held s -> timers_held (_disconnect_all i s).
Proof.
  intros H. unfold _disconnect_all.
  destruct (JsMap.next i (_activeConnections s)) as [[j [tab conn]]|]; [|exact H].
  exact (held_close conn "User disconnected" s H).
Qed.

Lemma held_disconnect tabId s : timers_held s -> timers_held (_disconnect tabId s).
Proof.
  intros H. destruct tabId as [tabId|]; simpl; [|apply held_disconnect_all, H].
  destruct (JsMap.get tabId (_activeConnections s)) as [conn|]; [|exact H].
  exact (held_close conn "User disconnected" s H).
Qed.

Lemma held_onTabRemoved tabId s :
  timers_held s -> timers_held (_onTabRemoved tabId s).
Proof.
  intros H. unfold _onTabRemoved.
  destruct (JsMap.get tabId (_pendingTabSelection s)) as [pending|].
  - apply held_close, held_delete_pending, H.
  - destruct (JsMap.get tabId (_activeConnections s)) as [conn|]; [|exact H].
    exact (held_close conn "Browser tab closed" s H).
Qed.

Lemma elem_keys {V} k (v : V) (m : JsMap.t V) :
  Some (k, v) ∈ m -> k ∈ JsMap.keys m.
Proof.
  intros Hin. apply list_elem_of_In, keys_has. unfold JsMap.has.
  destruct (JsMap.get k m) eqn:E; [reflexivity|].
  destruct (get_None_elem k v m E Hin).
Qed.

(** A tab is the key of one slot. *)
Lemma one_slot_per_key {V} k (v v' : V) (pre rest : JsMap.t V) :
  NoDup (JsMap.keys (pre ++ Some (k, v) :: rest)) ->
  Some (k, v') ∈ pre \/ Some (k, v') ∈ rest -> False.
Proof.
  rewrite keys_app.
  change (JsMap.keys (Some (k, v) :: rest)) with (k :: JsMap.keys rest).
  intros Hnodup Hin. apply NoDup_app in Hnodup as (_ & Hdisj & Hrest).
  destruct Hin as [Hin|Hin].
  - apply (Hdisj k (elem_keys k v' pre Hin)). apply list_elem_of_here.
  - apply NoDup_cons in Hrest as [Hnotin _]. exact (Hnotin (elem_keys k v' rest Hin)).
Qed.

Lemma held_onTabActivated_from activeTabId slots : forall pre s,
  _pendingTabSelection s = pre ++ slots ->
  NoDup (JsMap.keys (_pendingTabSelection s)) ->
  timers_held s ->
  timers_held (_onTabActivated_from activeTabId (length pre) slots s).
Proof.
  induction slots as [|[[k q]|] rest IH]; intros pre s Hpend Hnodup H;
    cbn [_onTabActivated_from].
  - exact H.
  - assert (Hnext : forall q' s',
              _pendingTabSelection s' = (pre ++ [Some (k, q')]) ++ rest ->
              NoDup (JsMap.keys (_pendingTabSelection s')) ->
              timers_held s' ->
              timers_held (_onTabActivated_from activeTabId (S (length pre)) rest s')).
    { intros q' s' Hpend' Hnodup' H'.
      replace (S (length pre)) with (length (pre ++ [Some (k, q')]))
        by (rewrite length_app; simpl; lia).
      apply IH; assumption. }
    assert (Hpend' : _pendingTabSelection s = (pre ++ [Some (k, q)]) ++ rest)
      by (rewrite <- app_assoc; exact Hpend).
    destruct (Z.eqb k activeTabId); destruct (timerId q) as [t|] eqn:Ht.
    + (* lines 212-213 *)
      assert (Hq : timers s !! t
                   = Some {| timer_tabId := k; timer_connection := connection q;
                             armed := true |}).
      { apply (H k q t); [|exact Ht].
        rewrite Hpend. apply elem_of_app. right. apply list_elem_of_here. }
      apply (Hnext (set_timerId None q)).
      * cbn [_pendingTabSelection with_pending clearTimeout emit with_timers].
        rewrite Hpend, update_at_middle, <- app_assoc. reflexivity.
      * cbn [_pendingTabSelection with_pending clearTimeout emit with_timers].
        rewrite keys_update_at. exact Hnodup.
      * intros k' p' t' Hin Ht'.
        cbn [_pendingTabSelection with_pending clearTimeout emit with_timers timers]
          in Hin |- *.
        rewrite Hpend, update_at_middle in Hin.
        assert (Hold : Some (k', p') ∈ pre \/ Some (k', p') ∈ rest).
        { apply elem_of_app in Hin as [Hin|Hin]; [left; exact Hin|].
          apply elem_of_cons in Hin as [[= -> ->]|Hin]; [discriminate|].
          right. exact Hin. }
        assert (Hin' : Some (k', p') ∈ _pendingTabSelection s).
        { rewrite Hpend. apply elem_of_app.
          destruct Hold as [Hold|Hold]; [left; exact Hold|].
          right. apply list_elem_of_further, Hold. }
        pose proof (H k' p' t' Hin' Ht') as Hq'.
        destruct (Nat.eq_dec t t') as [<-|Hne].
        { rewrite Hq in Hq'. injection Hq' as <- _.
          rewrite Hpend in Hnodup.
          destruct (one_slot_per_key k q p' pre rest Hnodup Hold). }
        rewrite list_lookup_alter_ne by exact Hne. exact Hq'.
    + apply (Hnext q); assumption.
    + apply (Hnext q); assumption.
    + (* lines 218-224 *)
      intros k' p' t' Hin Ht'. unfold setTimeout in Hin |- *.
      cbn [_pendingTabSelection with_pending emit with_timers timers] in Hin |- *.
      rewrite Hpend, update_at_middle in Hin.
      apply elem_of_app in Hin as [Hin|Hin];
        [|apply elem_of_cons in Hin as [[= -> ->]|Hin]].
      * apply lookup_app_l_Some, (H k' p' t'); [|exact Ht'].
        rewrite Hpend. apply elem_of_app. left. exact Hin.
      * simpl in Ht'. injection Ht' as <-.
        apply list_lookup_middle. reflexivity.
      * apply lookup_app_l_Some, (H k' p' t'); [|exact Ht'].
        rewrite Hpend. apply elem_of_app. right. apply list_elem_of_further, Hin.
  - replace (S (length pre)) with (length (pre ++ [None : option (Z * PendingSelection)]))
      by (rewrite length_app; simpl; lia).
    apply IH; [|exact Hnodup|exact H].
    rewrite <- app_assoc. exact Hpend.
Qed.

(** The callback deletes the entry of its tab, the one that may hold
    the timer that fired. *)
Lemma held_fire_timer t s : timers_held s -> timers_held (fire_timer t s).
Proof.
  intros H. unfold fire_timer.
  destruct (timers s !! t) as [tm|] eqn:Htm; [|exact H].
  destruct (armed tm); [|exact H].
  unfold timer_callback.
  assert (H' : timers_held (with_pending (JsMap.delete (timer_tabId tm))
                              (with_timers (alter disarm t) s))).
  { intros k p t' Hin Ht'. simpl in Hin |- *.
    apply elem_delete in Hin as [Hne Hin].
    pose proof (H k p t' Hin Ht') as Hp.
    destruct (Nat.eq_dec t t') as [<-|Hne'].
    - rewrite Htm in Hp. injection Hp as ->. destruct (Hne eq_refl).
    - rewrite list_lookup_alter_ne by exact Hne'. exact Hp. }
  destruct (JsMap.has _ _); [|exact H'].
  exact (held_close (timer_connection tm) "Tab has been inactive for 5 seconds" _ H').
Qed.

Lemma held_resume t r s : timers_held s -> timers_held (resume t r s).
Proof.
  intros H. destruct t as [sel url|cur|sel tab win|tab|tab k]; cbn [resume].
  - apply held_connectToRelay_resumed, H.
  - destruct r; exact H.
  - apply held_connectTab_bind, H.
  - destruct r; exact H.
  - assert (H' : timers_held (_removeConnectedTab_resumed tab s)).
    { unfold _removeConnectedTab_resumed.
      destruct (_lastConnectedTabId s) as [t|]; [|exact H].
      destruct (Z.eqb t tab); exact H. }
    destruct k as [|resp|i]; cbn [continue].
    + exact H'.
    + exact H'.
    + apply held_disconnect_all, H'.
Qed.

Lemma held_handle e s :
  NoDup (JsMap.keys (_pendingTabSelection s)) ->
  timers_held s -> timers_held (handle e s).
Proof.
  intros Hnodup H. destruct e as [message sender|tab|tab|tab| |t|l|i r]; cbn [handle].
  - destruct message as [url| |tabId windowId url| | |tabId]; cbn [_onMessage];
      try exact H.
    + apply held_connectTab, H.
    + apply held_disconnect, H.
  - apply held_onTabRemoved, H.
  - unfold _onTabUpdated. destruct (JsMap.has _ _); exact H.
  - exact (held_onTabActivated_from tab (_pendingTabSelection s) [] s
             eq_refl Hnodup H).
  - exact H.
  - apply held_fire_timer, H.
  - apply held_notify_closed, H.
  - destruct (tasks s !! i) as [t|]; [|exact H].
    apply held_resume. exact H.
Qed.

Lemma reachable_held s : reachable s -> timers_held s.
Proof.
  intros Hr. induction Hr as [|e s Hr IH].
  - intros k p t Hin. inversion Hin.
  - apply held_handle; [exact (proj1 (reachable_keys_unique s Hr))|exact IH].
Qed.

End HeldTimers.

(** X20. The timer id held by a pending entry is never stale.  In
    every reachable state, the [timerId] of a pending entry is the id
    of a timer that is still armed and whose callback (lines 218-224)
    refers to the tab and to the link of that very entry; no other
    entry holds the same timer id.  ([_onTabActivated] forgets the id
    when it clears the timer, and the callback of a timer that fires
    deletes the entry.) *)
Theorem held_timer_is_live
    (s : state) (tabId : Z) (pending : PendingSelection) (t : timer_id) :
  reachable s ->
  JsMap.get tabId (_pendingTabSelection s) = Some pending ->
  timerId pending = Some t ->
  timers s !! t
  = Some {| timer_tabId := tabId; timer_connection := connection pending;
            armed := true |}
  /\ forall tabId' pending',
       JsMap.get tabId' (_pendingTabSelection s) = Some pending' ->
       timerId pending' = Some t -> tabId' = tabId.
Proof.
  intros Hr Hget Ht. pose proof (reachable_held s Hr) as H.
  pose proof (H tabId pending t (JsMapFacts.get_elem _ _ _ Hget) Ht) as Htm.
  split; [exact Htm|].
  intros tabId' pending' Hget' Ht'.
  pose proof (H tabId' pending' t (JsMapFacts.get_elem _ _ _ Hget') Ht') as Htm'.
  rewrite Htm in Htm'. injection Htm' as -> _. reflexivity.
Qed.

Lemma held_timer_is_live_witness :
  JsMap.get 2 (_pendingTabSelection second_armed)
    = Some {| connection := 1; timerId := Some 1%nat |}
  /\ timers second_armed !! 1%nat
     = Some {| timer_tabId := 2; timer_connection := 1; armed := true |}.
Proof.
  split; [reflexivity|].
  assert (Hr : reachable second_armed).
  { apply reachable_run, reachable_run, reachable_initial. }
  exact (proj1 (held_timer_is_live second_armed 2
                  {| connection := 1%nat; timerId := Some 1%nat |} 1%nat
                  Hr eq_refl eq_refl)).
Defined.
